(** * Version bumping and changelog entries: a shallow embedding

    The repository holds a version-bump script ([upgradePackageJSONVersion],
    run by the workflow as [node upgrade_version.js <type>]) and, in
    [test/workflow.test.js], the classes [VersionManager] and
    [ChangelogManager].  This development embeds those functions together
    with the part of the JavaScript platform they rely on (Number values,
    Number-to-String conversion, [parseInt], [split]/[join], [Date]) and
    proves the properties the specification states about them.

    Conventions of the embedding:
    - a JavaScript string is a [string]; each [ascii] stands for one code
      unit in the range U+0000..U+00FF;
    - a JavaScript Number is an IEEE-754 double; only integer-valued doubles,
      the two infinities and NaN can arise in the embedded code, see
      [JS.number];
    - effects (the clock, the console, the process exit status, the package
      manifest) live in an explicit [World], threaded by the monad [JS]. *)

From Stdlib Require Import ZArith NArith Ascii String List Lia Bool.
Import ListNotations.

Local Open Scope string_scope.

(* ===================================================================== *)
(** * The JavaScript platform *)
(* ===================================================================== *)

Module JS.

(** ** Number values *)

(** The Number values reachable from the embedded code.  [Fin z] is the
    double whose mathematical value is the integer [z]; it is only ever built
    through [F], so [z] is exactly representable.  The two zeros are
    identified: the code never observes their difference ([-0 + 1] is [1],
    [-0 < 100] holds and [-0] prints as ["0"]). *)
Inductive number : Type :=
| Fin (z : Z)
| PosInf
| NegInf
| NaN.

(** Round a natural number to the nearest one with at most 53 significant
    bits, ties to the even significand (IEEE-754 roundTiesToEven). *)
Definition roundN (n : N) : N :=
  let shift := (N.log2 n - 52)%N in
  let p := (2 ^ shift)%N in
  let q := (n / p)%N in
  let r := (n mod p)%N in
  if ((p <? 2 * r) || ((2 * r =? p) && N.odd q))%N
  then ((q + 1) * p)%N
  else (q * p)%N.

(** Doubles overflow to an infinity from 2^1024 on. *)
Definition overflow_threshold : N := (2 ^ 1024)%N.

(** [F z] is "the Number value for" the integer [z] (ECMAScript 6.1.6.1). *)
Definition F (z : Z) : number :=
  let m := roundN (Z.abs_N z) in
  if (overflow_threshold <=? m)%N
  then (if (z <? 0)%Z then NegInf else PosInf)
  else Fin (Z.sgn z * Z.of_N m).

(** [x + 1], also the effect of [x++] on the variable. *)
Definition add1 (x : number) : number :=
  match x with
  | Fin z => F (z + 1)
  | PosInf => PosInf
  | NegInf => NegInf
  | NaN => NaN
  end.

(** [x < 100]. *)
Definition lt100 (x : number) : bool :=
  match x with
  | Fin z => (z <? 100)%Z
  | PosInf => false
  | NegInf => true
  | NaN => false
  end.

(** [x === 0]. *)
Definition is_zero (x : number) : bool :=
  match x with
  | Fin z => (z =? 0)%Z
  | _ => false
  end.

(** ** Decimal digits *)

Definition digit_char (d : N) : ascii := ascii_of_N (48 + d).

Definition is_digit (c : ascii) : bool :=
  let n := N_of_ascii c in ((48 <=? n) && (n <=? 57))%N.

Definition digit_val (c : ascii) : N := (N_of_ascii c - 48)%N.

Fixpoint all_digits (s : string) : bool :=
  match s with
  | EmptyString => true
  | String c r => is_digit c && all_digits r
  end.

(** The mathematical value of a string of decimal digits. *)
Fixpoint digits_value_from (acc : N) (s : string) : N :=
  match s with
  | EmptyString => acc
  | String c r => digits_value_from (10 * acc + digit_val c)%N r
  end.

Definition digits_value (s : string) : N := digits_value_from 0 s.

Fixpoint decimal_fuel (fuel : nat) (n : N) (acc : string) : string :=
  match fuel with
  | O => acc
  | S f =>
      let acc' := String (digit_char (n mod 10)) acc in
      if (n <? 10)%N then acc' else decimal_fuel f (n / 10)%N acc'
  end.

(** The decimal numeral of [n], most significant digit first, no leading
    zero (["0"] for zero). *)
Definition decimal (n : N) : string :=
  decimal_fuel (S (N.to_nat (N.log2 n))) n "".

(** ** Number::toString (radix 10) on the values of [number] *)

(** The integer with the fewest significant decimal digits that still rounds
    to [v]: the search of step 5 of Number::toString, from one significant
    digit up.  [e] is the number of trailing zeros tried; with [p = 10^e] the
    two candidates are the multiples of [p] around [v].  When both round to
    [v] the closer one wins, and the even one on a tie. *)
Fixpoint shortest_repr_from (v : N) (e : nat) : N :=
  match e with
  | O => v
  | S e' =>
      let p := (10 ^ N.of_nat e)%N in
      let lo := (v / p)%N in
      let hi := (lo + 1)%N in
      let lo_ok := ((0 <? lo) && (roundN (lo * p) =? v))%N in
      let hi_ok := (roundN (hi * p) =? v)%N in
      match lo_ok, hi_ok with
      | true, false => (lo * p)%N
      | false, true => (hi * p)%N
      | true, true =>
          let dlo := (v - lo * p)%N in
          let dhi := (hi * p - v)%N in
          if (dlo <? dhi)%N then (lo * p)%N
          else if (dhi <? dlo)%N then (hi * p)%N
          else if N.even lo then (lo * p)%N else (hi * p)%N
      | false, false => shortest_repr_from v e'
      end
  end.

Definition shortest_repr (v : N) : N :=
  shortest_repr_from v (String.length (decimal v) - 1).

(** A numeral without its trailing zeros (the significant digits). *)
Fixpoint strip_trailing_zeros (s : string) : string :=
  match s with
  | EmptyString => EmptyString
  | String c r =>
      match strip_trailing_zeros r, c with
      | EmptyString, "0"%char => EmptyString
      | r', _ => String c r'
      end
  end.

(** Number::toString of a positive integer-valued double [v]. *)
Definition pos_toString (v : N) : string :=
  let ds := decimal (shortest_repr v) in
  let n := String.length ds in
  if (n <=? 21)%nat then ds
  else
    match strip_trailing_zeros ds with
    | EmptyString => ds
    | String d EmptyString => String d ("e+" ++ decimal (N.of_nat (n - 1)))
    | String d rest => String d ("." ++ rest ++ "e+" ++ decimal (N.of_nat (n - 1)))
    end.

Definition Number_toString (x : number) : string :=
  match x with
  | NaN => "NaN"
  | PosInf => "Infinity"
  | NegInf => "-Infinity"
  | Fin z =>
      if (z =? 0)%Z then "0"
      else if (z <? 0)%Z then "-" ++ pos_toString (Z.abs_N z)
      else pos_toString (Z.abs_N z)
  end.

(** ** String operations *)

(** [s.split(sep)] for a one-character separator: never an empty array. *)
Fixpoint split (sep : ascii) (s : string) : list string :=
  match s with
  | EmptyString => [EmptyString]
  | String c r =>
      if Ascii.eqb c sep then EmptyString :: split sep r
      else match split sep r with
           | p :: ps => String c p :: ps
           | [] => [String c EmptyString]
           end
  end.

(** [s.substring(0, n)]: the first [n] code units, or all of [s] when it is
    shorter. *)
Definition substring_to (n : nat) (s : string) : string := String.substring 0 n s.

(** The values an element of the script's [versionParts] array can hold. *)
Inductive value : Type :=
| VUndefined
| VString (s : string)
| VNumber (x : number).

Definition ToString (v : value) : string :=
  match v with
  | VUndefined => "undefined"
  | VString s => s
  | VNumber x => Number_toString x
  end.

(** [a[i]]: reading past the end yields [undefined]. *)
Definition array_get (a : list value) (i : nat) : value := nth i a VUndefined.

(** [a[i] = v]: writing past the end extends the array, the gap reads as
    [undefined]. *)
Fixpoint array_set (a : list value) (i : nat) (v : value) : list value :=
  match i, a with
  | O, [] => [v]
  | O, _ :: t => v :: t
  | S i', [] => VUndefined :: array_set [] i' v
  | S i', h :: t => h :: array_set t i' v
  end.

(** [a.join(sep)]: [undefined] elements and holes contribute the empty
    string. *)
Definition join_elem (v : value) : string :=
  match v with
  | VUndefined => ""
  | _ => ToString v
  end.

Definition join (sep : string) (a : list value) : string :=
  String.concat sep (map join_elem a).

(** ** parseInt(-, 10) and Number(-) *)

Definition is_white_space (c : ascii) : bool :=
  let n := N_of_ascii c in
  ((n =? 9) || (n =? 10) || (n =? 11) || (n =? 12) || (n =? 13)
   || (n =? 32) || (n =? 160))%N.

Fixpoint trim_start (s : string) : string :=
  match s with
  | String c r => if is_white_space c then trim_start r else s
  | EmptyString => EmptyString
  end.

(** The longest prefix of decimal digits, and what follows it. *)
Fixpoint span_digits (s : string) : string * string :=
  match s with
  | String c r =>
      if is_digit c
      then let (d, rest) := span_digits r in (String c d, rest)
      else (EmptyString, s)
  | EmptyString => (EmptyString, EmptyString)
  end.

(** One leading sign, if any: whether it is a minus, and what follows. *)
Definition strip_sign (s : string) : bool * string :=
  match s with
  | String "-" r => (true, r)
  | String "+" r => (false, r)
  | _ => (false, s)
  end.

(** [parseInt(v, 10)]: the argument is converted to a string, leading white
    space and one sign are skipped, the longest digit prefix is read; no
    digit gives [NaN].  The value is correctly rounded (an engine may round
    numerals of more than 20 significant digits differently). *)
Definition parseInt10 (v : value) : number :=
  let s := trim_start (ToString v) in
  let '(neg, s1) := strip_sign s in
  let (ds, _) := span_digits s1 in
  match ds with
  | EmptyString => NaN
  | _ => let m := Z.of_N (digits_value ds) in F (if neg then (- m)%Z else m)
  end.

(** [Number(s)] for a capture of [\d+]: the value of the decimal numeral,
    correctly rounded (with the same latitude past 20 significant digits).
    The rest of the numeric-string grammar, signs, fractions, exponents,
    white space, never reaches it here. *)
Definition Number_of_digits (s : string) : number := F (Z.of_N (digits_value s)).

(** ** Regular expressions *)

(** The fragment of regular expressions the version pattern is written in. *)
Inductive regex : Type :=
| ReDigit                       (* \d *)
| ReChar (c : ascii)            (* a literal character *)
| ReSeq (r1 r2 : regex)
| RePlus (r : regex).           (* r+ *)

(** [re_match r s]: the whole of [s] is matched by [r]. *)
Inductive re_match : regex -> string -> Prop :=
| MDigit c : is_digit c = true -> re_match ReDigit (String c "")
| MChar c : re_match (ReChar c) (String c "")
| MSeq r1 r2 s1 s2 :
    re_match r1 s1 -> re_match r2 s2 -> re_match (ReSeq r1 r2) (s1 ++ s2)
| MPlusOne r s : re_match r s -> re_match (RePlus r) s
| MPlusMore r s1 s2 :
    re_match r s1 -> re_match (RePlus r) s2 -> re_match (RePlus r) (s1 ++ s2).

(** ** Date *)

Definition msPerDay : Z := 86400000.

Definition Day (t : Z) : Z := (t / msPerDay)%Z.
Definition TimeWithinDay (t : Z) : Z := (t mod msPerDay)%Z.

(** Number of the first day of year [y], counted from 1 January 1970. *)
Definition DayFromYear (y : Z) : Z :=
  (365 * (y - 1970) + (y - 1969) / 4 - (y - 1901) / 100 + (y - 1601) / 400)%Z.

(** 1 when year [y] has 366 days, 0 when it has 365. *)
Definition InLeapYear (y : Z) : Z := (DayFromYear (y + 1) - DayFromYear y - 365)%Z.

(** Day within the year on which month [m] (1..12) starts; for 13, the
    number of days of the year (the table of MonthFromTime). *)
Definition month_start (m leap : Z) : Z :=
  (if m <=? 1 then 0 else if m =? 2 then 31 else
   if m =? 3 then 59 + leap else if m =? 4 then 90 + leap else
   if m =? 5 then 120 + leap else if m =? 6 then 151 + leap else
   if m =? 7 then 181 + leap else if m =? 8 then 212 + leap else
   if m =? 9 then 243 + leap else if m =? 10 then 273 + leap else
   if m =? 11 then 304 + leap else if m =? 12 then 334 + leap else 365 + leap)%Z.

(** Year, month (1..12) and day of the month (1..31) of a day number, in the
    proleptic Gregorian calendar, in closed form; [civil_from_days_spec]
    below relates it to [DayFromYear] and [month_start]. *)
Definition civil_from_days (days : Z) : Z * Z * Z :=
  let z := (days + 719468)%Z in
  let era := (z / 146097)%Z in
  let doe := (z - era * 146097)%Z in
  let yoe := ((doe - doe / 1460 + doe / 36524 - doe / 146096) / 365)%Z in
  let doy := (doe - (365 * yoe + yoe / 4 - yoe / 100))%Z in
  let mp := ((5 * doy + 2) / 153)%Z in
  let d := (doy - (153 * mp + 2) / 5 + 1)%Z in
  let m := (if mp <? 10 then mp + 3 else mp - 9)%Z in
  let y := (yoe + era * 400 + (if m <=? 2 then 1 else 0))%Z in
  (y, m, d).

Definition YearFromTime (t : Z) : Z := fst (fst (civil_from_days (Day t))).
Definition MonthFromTime (t : Z) : Z := snd (fst (civil_from_days (Day t))).
Definition DateFromTime (t : Z) : Z := snd (civil_from_days (Day t)).
Definition HourFromTime (t : Z) : Z := (TimeWithinDay t / 3600000)%Z.
Definition MinFromTime (t : Z) : Z := ((TimeWithinDay t / 60000) mod 60)%Z.
Definition SecFromTime (t : Z) : Z := ((TimeWithinDay t / 1000) mod 60)%Z.
Definition msFromTime (t : Z) : Z := (t mod 1000)%Z.

Fixpoint zeros (n : nat) : string :=
  match n with
  | O => EmptyString
  | S n' => String "0" (zeros n')
  end.

(** The decimal numeral of [n], padded with zeros on the left to [width]. *)
Definition pad (width : nat) (n : Z) : string :=
  let ds := decimal (Z.to_N n) in
  zeros (width - String.length ds) ++ ds.

(** The year field of the ISO format: four digits for the years 0..9999,
    otherwise a sign and six digits. *)
Definition iso_year (y : Z) : string :=
  if ((0 <=? y) && (y <=? 9999))%Z then pad 4 y
  else if (y <? 0)%Z then "-" ++ pad 6 (- y)
  else "+" ++ pad 6 y.

Definition iso_date (t : Z) : string :=
  iso_year (YearFromTime t) ++ "-" ++ pad 2 (MonthFromTime t)
    ++ "-" ++ pad 2 (DateFromTime t).

Definition iso_time (t : Z) : string :=
  pad 2 (HourFromTime t) ++ ":" ++ pad 2 (MinFromTime t) ++ ":"
    ++ pad 2 (SecFromTime t) ++ "." ++ pad 3 (msFromTime t).

(** [d.toISOString()] for the date with time value [t]:
    [YYYY-MM-DDTHH:mm:ss.sssZ]. *)
Definition toISOString (t : Z) : string :=
  iso_date t ++ "T" ++ iso_time t ++ "Z".

(** ** The world and the monad of JavaScript computations *)

(** What the embedded functions can reach outside their arguments. *)
Record World : Type := mkWorld {
  clock : Z;                      (* time value [new Date()] would read, ms since the epoch *)
  argv2 : option string;          (* [process.argv[2]], [None] when absent *)
  package_version : string;       (* the [version] member of the parsed package.json *)
  stdout : list string;           (* lines written by [console.log], oldest first *)
  stderr : list string            (* lines written by [console.error], oldest first *)
}.

(** How a computation ends: with a value, with a thrown [Error] (its
    message), or by [process.exit]. *)
Inductive completion (A : Type) : Type :=
| Return (a : A)
| Throw (message : string)
| Exit (code : Z).

Arguments Return {A} a.
Arguments Throw {A} message.
Arguments Exit {A} code.

Definition JS (A : Type) : Type := World -> completion A * World.

Definition ret {A} (a : A) : JS A := fun w => (Return a, w).

Definition bind {A B} (c : JS A) (k : A -> JS B) : JS B :=
  fun w =>
    match c w with
    | (Return a, w') => k a w'
    | (Throw m, w') => (Throw m, w')
    | (Exit n, w') => (Exit n, w')
    end.

Definition throw_Error {A} (message : string) : JS A := fun w => (Throw message, w).

Definition process_exit {A} (code : Z) : JS A := fun w => (Exit code, w).

(** [try { c } catch (error) { handler error }]; [process.exit] is not
    caught. *)
Definition try_catch {A} (c : JS A) (handler : string -> JS A) : JS A :=
  fun w =>
    match c w with
    | (Throw m, w') => handler m w'
    | other => other
    end.

Definition console_log (line : string) : JS unit :=
  fun w => (Return tt,
            mkWorld (clock w) (argv2 w) (package_version w)
                    (stdout w ++ [line]) (stderr w)).

Definition console_error (line : string) : JS unit :=
  fun w => (Return tt,
            mkWorld (clock w) (argv2 w) (package_version w)
                    (stdout w) (stderr w ++ [line])).

(** [new Date()]: the current time value. *)
Definition Date_now : JS Z := fun w => (Return (clock w), w).

(** [process.argv[2]]. *)
Definition process_argv2 : JS (option string) := fun w => (Return (argv2 w), w).

(** [JSON.parse(fs.readFileSync(packageJsonPath, 'utf8')).version]. *)
Definition read_package_version : JS string :=
  fun w => (Return (package_version w), w).

End JS.

Import JS.

Notation "x <- c ;; k" := (bind c (fun x => k))
  (at level 61, c at next level, right associativity).
Notation "c ;;; k" := (bind c (fun _ => k))
  (at level 61, right associativity).

(** A line feed, and a double quote. *)
Definition nl : string := String (ascii_of_nat 10) EmptyString.
Definition dq : string := String (ascii_of_nat 34) EmptyString.

(* ===================================================================== *)
(** * More of the platform: arrays of strings and files *)
(* ===================================================================== *)

Module Node.

(** The line feed as a character. *)
Definition lf : ascii := ascii_of_nat 10.

(** [s.trimEnd()] *)
Fixpoint trim_end (s : string) : string :=
  match s with
  | EmptyString => EmptyString
  | String c r =>
      match trim_end r with
      | EmptyString => if is_white_space c then EmptyString else String c EmptyString
      | r' => String c r'
      end
  end.

(** [s.trim()]: white space and line terminators are removed at both
    ends. *)
Definition trim (s : string) : string := trim_end (trim_start s).

(** [a.indexOf(x)] on an array of strings: the first index that holds [x],
    or -1. *)
Fixpoint indexOf_from (i : Z) (a : list string) (x : string) : Z :=
  match a with
  | [] => (-1)%Z
  | y :: t => if y =? x then i else indexOf_from (i + 1)%Z t x
  end.

Definition indexOf (a : list string) (x : string) : Z := indexOf_from 0 a x.

(** [a.findIndex(p)]: the first index whose element satisfies [p], or -1. *)
Fixpoint findIndex_from (i : Z) (p : string -> bool) (a : list string) : Z :=
  match a with
  | [] => (-1)%Z
  | y :: t => if p y then i else findIndex_from (i + 1)%Z p t
  end.

Definition findIndex (p : string -> bool) (a : list string) : Z :=
  findIndex_from 0 p a.

(** [x || d] for an integer [x]: zero is the one falsy integer. *)
Definition or_else (x d : Z) : Z := if (x =? 0)%Z then d else x.

(** An argument of [slice] made an index between 0 and the length: negative
    arguments count from the end. *)
Definition relative_index (len i : Z) : Z :=
  if (i <? 0)%Z then Z.max (len + i) 0 else Z.min i len.

(** [a.slice(start, end)] and [a.slice(start)]. *)
Definition slice (a : list string) (start end_ : Z) : list string :=
  let len := Z.of_nat (List.length a) in
  let k := relative_index len start in
  let final := relative_index len end_ in
  firstn (Z.to_nat (final - k)) (skipn (Z.to_nat k) a).

Definition slice_from (a : list string) (start : Z) : list string :=
  slice a start (Z.of_nat (List.length a)).

(** What the disk has at a path: a file with its text; a file that can be
    read and not written, with its text and the message of the write error;
    something that exists and can be neither read nor written (a directory,
    a file without permission), with the messages of the two errors; or
    nothing, in a place where no file can be created either (the directory
    is missing or closed to writing), with the message of the write error.
    A write that fails fails when the file is opened and leaves the disk as
    it was. *)
Inductive node : Type :=
| File (content : string)
| ReadOnly (content write_error : string)
| Blocked (read_error write_error : string)
| Uncreatable (write_error : string).

(** The disk: what it has at each path, [None] where nothing exists and a
    file can be created.  Paths are compared as strings. *)
Definition Disk : Type := string -> option node.

(** Computations on the disk. *)
Definition FS (A : Type) : Type := Disk -> completion A * Disk.

Definition fs_ret {A} (a : A) : FS A := fun d => (Return a, d).

Definition fs_bind {A B} (c : FS A) (k : A -> FS B) : FS B :=
  fun d =>
    match c d with
    | (Return a, d') => k a d'
    | (Throw m, d') => (Throw m, d')
    | (Exit n, d') => (Exit n, d')
    end.

Definition fs_throw {A} (message : string) : FS A := fun d => (Throw message, d).

(** [try { c } catch (error) { handler error.message }] *)
Definition fs_try_catch {A} (c : FS A) (handler : string -> FS A) : FS A :=
  fun d =>
    match c d with
    | (Throw m, d') => handler m d'
    | other => other
    end.

(** The disk with the file [content] at [path]. *)
Definition disk_write (d : Disk) (path content : string) : Disk :=
  fun q => if q =? path then Some (File content) else d q.

(** [fs.existsSync(path)] *)
Definition existsSync (path : string) : FS bool :=
  fun d =>
    (Return (match d path with
             | Some (File _) | Some (ReadOnly _ _) | Some (Blocked _ _) => true
             | Some (Uncreatable _) | None => false
             end), d).

(** [fs.readFileSync(path, 'utf8')] *)
Definition readFileSync (path : string) : FS string :=
  fun d =>
    match d path with
    | Some (File content) | Some (ReadOnly content _) => (Return content, d)
    | Some (Blocked read_error _) => (Throw read_error, d)
    | Some (Uncreatable _) | None =>
        (Throw ("ENOENT: no such file or directory, open '" ++ path ++ "'"), d)
    end.

(** [fs.writeFileSync(path, content)]: creates the file or replaces its
    text, or throws where the path cannot be written or created. *)
Definition writeFileSync (path content : string) : FS unit :=
  fun d =>
    match d path with
    | Some (ReadOnly _ write_error) | Some (Blocked _ write_error)
    | Some (Uncreatable write_error) =>
        (Throw write_error, d)
    | Some (File _) | None => (Return tt, disk_write d path content)
    end.

End Node.

Import Node.

Notation "x <~ c ;; k" := (fs_bind c (fun x => k))
  (at level 61, c at next level, right associativity).

(* ===================================================================== *)
(** * The version-bump script *)
(* ===================================================================== *)

Module UpgradeVersion.

(** [const versionBumpType = process.argv[2] || 'patch';]: an absent or
    empty argument selects ['patch']. *)
Definition versionBumpType : JS string :=
  a <- process_argv2 ;;
  ret (match a with
       | None => "patch"
       | Some EmptyString => "patch"
       | Some t => t
       end).

(** [['major', 'minor', 'patch'].includes(t)] *)
Definition recognized (t : string) : bool :=
  (t =? "major") || (t =? "minor") || (t =? "patch").

(** [const upgradePackageJSONVersion = () => { ... }]; the module constant
    [versionBumpType] it reads is passed as its argument. *)
Definition upgradePackageJSONVersion (versionBumpType : string) : JS string :=
  version <- read_package_version ;;
  let versionParts := map VString (split "." version) in
  try_catch
    (versionParts <-
       (if versionBumpType =? "patch" then
          let patch := add1 (parseInt10 (array_get versionParts 2)) in
          let versionParts := array_set versionParts 2 (VNumber patch) in
          if lt100 patch
          then ret (array_set versionParts 2 (VNumber (Fin 100)))
          else ret versionParts
        else if versionBumpType =? "minor" then
          let versionParts :=
            array_set versionParts 1
              (VNumber (add1 (parseInt10 (array_get versionParts 1)))) in
          ret (array_set versionParts 2 (VNumber (Fin 0)))
        else if versionBumpType =? "major" then
          let versionParts :=
            array_set versionParts 0
              (VNumber (add1 (parseInt10 (array_get versionParts 0)))) in
          let versionParts := array_set versionParts 1 (VNumber (Fin 0)) in
          ret (array_set versionParts 2 (VNumber (Fin 0)))
        else
          console_error
            ("Invalid version bump type. Please specify " ++ dq ++ "patch" ++ dq
               ++ ", " ++ dq ++ "minor" ++ dq ++ ", or " ++ dq ++ "major" ++ dq ++ ".") ;;;
          process_exit 1) ;;
     let newVersion := join "." versionParts in
     console_log newVersion ;;;
     ret newVersion)
    (fun error =>
       console_error ("Error upgrading version: Error: " ++ error) ;;;
       process_exit 1).

(** The script from its first line to its last: the argument check, then the
    upgrade. *)
Definition main : JS string :=
  t <- versionBumpType ;;
  if negb (recognized t)
  then console_error "Invalid version bump type. Use major, minor, or patch." ;;;
       process_exit 1
  else upgradePackageJSONVersion t.

End UpgradeVersion.

(* ===================================================================== *)
(** * test/workflow.test.js: VersionManager and ChangelogManager *)
(* ===================================================================== *)

Module VersionManager.

(** [/^(\d+)\.(\d+)\.(\d+)$/] *)
Definition versionRegex : regex :=
  ReSeq (RePlus ReDigit)
    (ReSeq (ReChar ".")
       (ReSeq (RePlus ReDigit)
          (ReSeq (ReChar ".") (RePlus ReDigit)))).

(** [currentVersion.match(versionRegex)]: the three captures, or [None] for
    JavaScript's [null].  Each [\d+] is greedy and is followed by something
    that is no digit, so a single left-to-right pass decides the match. *)
Definition versionRegex_exec (s : string) : option (string * string * string) :=
  match span_digits s with
  | (String _ _ as a, String "." r1) =>
      match span_digits r1 with
      | (String _ _ as b, String "." r2) =>
          match span_digits r2 with
          | (String _ _ as c, EmptyString) => Some (a, b, c)
          | _ => None
          end
      | _ => None
      end
  | _ => None
  end.

(** [static calculateNextVersion (currentVersion, increment = 'patch')] *)
Definition calculateNextVersion (currentVersion : string) (increment : option string)
  : JS string :=
  let increment := match increment with Some i => i | None => "patch" end in
  match versionRegex_exec currentVersion with
  | None => throw_Error ("Invalid version format: " ++ currentVersion)
  | Some (a, b, c) =>
      let major := Number_of_digits a in
      let minor := Number_of_digits b in
      let patch := Number_of_digits c in
      let '(major, minor, patch) :=
        if increment =? "major" then (add1 major, Fin 0, Fin 0)
        else if increment =? "minor" then (major, add1 minor, Fin 0)
        else (major, minor, if is_zero patch then Fin 100 else add1 patch) in
      ret (Number_toString major ++ "." ++ Number_toString minor ++ "."
             ++ Number_toString patch)
  end.

End VersionManager.

Module ChangelogManager.

Record commitData : Type := mkCommit {
  sha : string;
  author : string;
  message : string
}.

(** [static generateChangelogEntry (version, commitData)] *)
Definition generateChangelogEntry (version : string) (commit : commitData) : JS string :=
  now <- Date_now ;;
  let currentDate := hd EmptyString (split "T" (toISOString now)) in
  let shortSha := substring_to 7 (sha commit) in
  ret ("## [" ++ version ++ "] - " ++ currentDate ++ nl
       ++ nl
       ++ "**Author:** " ++ author commit ++ nl
       ++ "**Commit:** [" ++ shortSha ++ "](https://github.com/owner/repo/commit/"
       ++ sha commit ++ ")" ++ nl
       ++ "**Message:** " ++ message commit ++ nl
       ++ nl).

(** The header [updateChangelog] starts a changelog with when the file does
    not exist. *)
Definition changelogHeader : string :=
  "# Changelog" ++ nl ++ nl
  ++ "All notable changes to this project will be documented in this file."
  ++ nl ++ nl.

(** [lines.findIndex(line => line.trim() === '' && lines.indexOf(line) > 2) || 3] *)
Definition headerEndIndex (lines : list string) : Z :=
  or_else
    (findIndex (fun line => (trim line =? "") && (2 <? indexOf lines line)%Z) lines)
    3.

(** [static updateChangelog (newEntry, changelogPath = './CHANGELOG.md')] *)
Definition updateChangelog (newEntry changelogPath : string) : FS unit :=
  fs_try_catch
    (existingContent <~
       (present <~ existsSync changelogPath ;;
        if present then readFileSync changelogPath else fs_ret changelogHeader) ;;
     let lines := split lf existingContent in
     let headerEndIndex := headerEndIndex lines in
     let beforeHeader := slice lines 0 (headerEndIndex + 1) in
     let afterHeader := slice_from lines (headerEndIndex + 1) in
     let updatedContent :=
       String.concat nl (beforeHeader ++ [newEntry] ++ afterHeader) in
     writeFileSync changelogPath updatedContent)
    (fun message => fs_throw ("Failed to update changelog: " ++ message)).

End ChangelogManager.

(* ===================================================================== *)
(** * Notions used to state the properties *)
(* ===================================================================== *)

Import VersionManager.

(** 2^53: up to here every natural number is a double, and [x + 1] is exact
    below it. *)
Definition two53 : N := 9007199254740992.

(** [Number.MAX_SAFE_INTEGER] *)
Definition MAX_SAFE_INTEGER : N := 9007199254740991.

(** The textual form of the semantic version (major, minor, patch):
    three decimal numerals without leading zeros, joined by dots. *)
Definition version_string (major minor patch : N) : string :=
  decimal major ++ "." ++ decimal minor ++ "." ++ decimal patch.

Definition version_string_of (t : N * N * N) : string :=
  let '(major, minor, patch) := t in version_string major minor patch.

(** The three recognized increment kinds and the selector naming each. *)
Inductive IncrementKind : Type := Major | Minor | Patch.

Definition kind_name (k : IncrementKind) : string :=
  match k with
  | Major => "major"
  | Minor => "minor"
  | Patch => "patch"
  end.

(** The increment policy in the words of the specification (section 4.1). *)
Definition spec_nextVersion (k : IncrementKind) (t : N * N * N) : N * N * N :=
  let '(major, minor, patch) := t in
  match k with
  | Major => (major + 1, 0, 0)%N
  | Minor => (major, minor + 1, 0)%N
  | Patch => (major, minor, if (patch =? 0)%N then 100 else patch + 1)%N
  end.

(** [x + 1] on the doubles 0..2^53: exact below 2^53, absorbed at 2^53. *)
Definition succ53 (n : N) : N := N.min (n + 1) two53.

(** What [calculateNextVersion] does to the three numbers, for any selector. *)
Definition vm_step (increment : string) (t : N * N * N) : N * N * N :=
  let '(major, minor, patch) := t in
  if increment =? "major" then (succ53 major, 0, 0)%N
  else if increment =? "minor" then (major, succ53 minor, 0)%N
  else (major, minor, if (patch =? 0)%N then 100%N else succ53 patch).

(** What the script does to the patch number. *)
Definition script_patch (patch : N) : N :=
  if (succ53 patch <? 100)%N then 100%N else succ53 patch.

(** What the script does to the three numbers. *)
Definition script_step (k : IncrementKind) (t : N * N * N) : N * N * N :=
  let '(major, minor, patch) := t in
  match k with
  | Major => (succ53 major, 0, 0)%N
  | Minor => (major, succ53 minor, 0)%N
  | Patch => (major, minor, script_patch patch)
  end.

(** The one component the script parses: the one it increments. *)
Definition parsed_component (k : IncrementKind) (t : N * N * N) : N :=
  let '(major, minor, patch) := t in
  match k with
  | Major => major
  | Minor => minor
  | Patch => patch
  end.

(** The numbers denoted by the three captures of the version pattern. *)
Definition components (s : string) : option (N * N * N) :=
  match versionRegex_exec s with
  | Some (a, b, c) => Some (digits_value a, digits_value b, digits_value c)
  | None => None
  end.

(** Every component is at most 2^53. *)
Definition within_limit (s : string) : bool :=
  match components s with
  | Some (major, minor, patch) =>
      ((major <=? two53) && (minor <=? two53) && (patch <=? two53))%N
  | None => false
  end.




(** No occurrence of the character [c] in [s]. *)
Fixpoint no_char (c : ascii) (s : string) : bool :=
  match s with
  | EmptyString => true
  | String d r => negb (Ascii.eqb d c) && no_char c r
  end.

(** The world after one more line on standard output, or standard error. *)
Definition with_stdout (w : World) (line : string) : World :=
  mkWorld (clock w) (argv2 w) (package_version w) (stdout w ++ [line]) (stderr w).

Definition with_stderr (w : World) (line : string) : World :=
  mkWorld (clock w) (argv2 w) (package_version w) (stdout w) (stderr w ++ [line]).

(** The same world with another version in the manifest, another argument. *)
Definition with_version (w : World) (version : string) : World :=
  mkWorld (clock w) (argv2 w) version (stdout w) (stderr w).

Definition with_argv2 (w : World) (a : option string) : World :=
  mkWorld (clock w) a (package_version w) (stdout w) (stderr w).

(** A world to run examples in: the clock reads 2024-07-04 14:30:25 UTC,
    nothing has been printed yet. *)
Definition example_world (a : option string) (version : string) : World :=
  mkWorld 1720103425000 a version [] [].

(** Increments applied one after the other, each to the version the previous
    one returned. *)
Fixpoint chain (version : string) (increments : list (option string)) : JS string :=
  match increments with
  | [] => ret version
  | i :: rest =>
      next <- calculateNextVersion version i ;;
      chain next rest
  end.

(** The date and time format of the specification's changelog block
    (section 6), [YYYY-MM-DD HH:MM:SS UTC]. *)
Definition spec_datetime (t : Z) : string :=
  iso_date t ++ " " ++ pad 2 (HourFromTime t) ++ ":" ++ pad 2 (MinFromTime t)
    ++ ":" ++ pad 2 (SecFromTime t) ++ " UTC".

(** The changelog block in the words of the specification (section 6), with
    the text [when] after the version. *)
Definition spec_changelog_block (version : string) (commit : ChangelogManager.commitData)
    (owner repo : string) (when : string) : string :=
  "## [" ++ version ++ "] - " ++ when ++ nl
  ++ nl
  ++ "**Author:** " ++ ChangelogManager.author commit ++ nl
  ++ "**Commit:** [" ++ substring_to 7 (ChangelogManager.sha commit)
  ++ "](https://github.com/" ++ owner ++ "/" ++ repo ++ "/commit/"
  ++ ChangelogManager.sha commit ++ ")" ++ nl
  ++ "**Message:** " ++ ChangelogManager.message commit ++ nl
  ++ nl.

(** The commit of the test suite's mock data. *)
Definition example_commit : ChangelogManager.commitData :=
  ChangelogManager.mkCommit "abc123def456789" "Test Author"
    "feat: add new feature for testing".

(** What the script does with the argument [a] of the command line, for a
    selector that is none of the three recognized ones. *)
Definition script_on_unrecognized (a : option string) : JS string :=
  match a with
  | None => UpgradeVersion.upgradePackageJSONVersion "patch"
  | Some EmptyString => UpgradeVersion.upgradePackageJSONVersion "patch"
  | Some _ =>
      fun w => (Exit 1,
                with_stderr w "Invalid version bump type. Use major, minor, or patch.")
  end.

(** Versions in their order of precedence: major first, then minor, then
    patch. *)
Definition version_lt (t1 t2 : N * N * N) : Prop :=
  let '(major1, minor1, patch1) := t1 in
  let '(major2, minor2, patch2) := t2 in
  (major1 < major2
   \/ (major1 = major2
       /\ (minor1 < minor2 \/ (minor1 = minor2 /\ patch1 < patch2))))%N.

(** Every character of [s] is white space; so is the empty string. *)
Fixpoint whitespace_only (s : string) : bool :=
  match s with
  | EmptyString => true
  | String c r => is_white_space c && whitespace_only r
  end.

(** The lines of a text: [content.split('\n')]. *)
Definition lines_of (content : string) : list string := split lf content.

(** Every white-space-only line of the text is empty. *)
Definition blank_lines_empty (content : string) : Prop :=
  forall line, In line (lines_of content) -> whitespace_only line = true -> line = "".

(** One of the first three lines of the text is empty. *)
Definition empty_line_on_top (content : string) : Prop :=
  In "" (firstn 3 (lines_of content)).

(** Entries put on top of a text, the last of the list topmost, each
    followed by a line feed. *)
Fixpoint stack (entries : list string) (content : string) : string :=
  match entries with
  | [] => content
  | e :: rest => stack rest (e ++ nl ++ content)
  end.

(** [updateChangelog] called for each entry of the list in turn. *)
Fixpoint updateChangelog_all (entries : list string) (changelogPath : string)
  : FS unit :=
  match entries with
  | [] => fs_ret tt
  | e :: rest =>
      _ <~ ChangelogManager.updateChangelog e changelogPath ;;
      updateChangelog_all rest changelogPath
  end.

(** A request for a changelog entry: the version, the commit and the world
    in which [generateChangelogEntry] runs; and what makes it single-line:
    no line feed in the version, the author, the sha or the message. *)
Definition entry_request : Type := string * ChangelogManager.commitData * World.

Definition single_line (r : entry_request) : Prop :=
  let '(version, commit, _) := r in
  no_char lf version = true
  /\ no_char lf (ChangelogManager.author commit) = true
  /\ no_char lf (ChangelogManager.sha commit) = true
  /\ no_char lf (ChangelogManager.message commit) = true.

(** [generateChangelogEntry] answers the request with the entry [e]. *)
Definition generates (r : entry_request) (e : string) : Prop :=
  let '(version, commit, w) := r in
  ChangelogManager.generateChangelogEntry version commit w = (Return e, w).

(** An empty disk, for examples. *)
Definition empty_disk : Disk := fun _ => None.

(** The changelog the test suite starts from. *)
Definition example_changelog : string :=
  "# Changelog" ++ nl ++ nl
  ++ "All notable changes to this project will be documented in this file."
  ++ nl ++ nl ++ "## [1.2.3] - 2023-01-01" ++ nl ++ nl ++ "Older entry" ++ nl.

(** Two requests, as in the integration test: a release and a fix. *)
Definition example_requests : list entry_request :=
  [ ("1.2.100", example_commit, example_world None "1.2.100");
    ("1.2.101",
     ChangelogManager.mkCommit "abc123def456789" "Test Author" "fix: critical bug fix",
     example_world None "1.2.101") ].

Definition example_entries : list string :=
  [ spec_changelog_block "1.2.100" example_commit "owner" "repo" "2024-07-04";
    spec_changelog_block "1.2.101"
      (ChangelogManager.mkCommit "abc123def456789" "Test Author" "fix: critical bug fix")
      "owner" "repo" "2024-07-04" ].

(* ===================================================================== *)
(** * Facts about the platform *)
(* ===================================================================== *)

(** Division and remainder by constants are put within reach of [lia]. *)
Ltac Zify.zify_post_hook ::= Z.to_euclidean_division_equations.

(** ** The monad *)

Section MonadLaws.
Context {A B C : Type}.

Lemma bind_ret_l (a : A) (k : A -> JS B) (w : World) :
  bind (ret a) k w = k a w.
Proof. reflexivity. Qed.

Lemma bind_ret_r (c : JS A) (w : World) : bind c ret w = c w.
Proof. unfold bind, ret. destruct (c w) as [[a|m|n] w']; reflexivity. Qed.

Lemma bind_assoc (c : JS A) (k : A -> JS B) (h : B -> JS C) (w : World) :
  bind (bind c k) h w = bind c (fun a => bind (k a) h) w.
Proof. unfold bind. destruct (c w) as [[a|m|n] w']; reflexivity. Qed.

(** A computation that returns binds like the value it returns. *)
Lemma bind_returns (c : JS A) (k : A -> JS B) (w w' : World) (a : A) :
  c w = (Return a, w') -> bind c k w = k a w'.
Proof. intros E. unfold bind. rewrite E. reflexivity. Qed.
End MonadLaws.

(** ** Strings *)

Lemma append_nil_r (s : string) : s ++ "" = s.
Proof. induction s as [|c s IH]; simpl; congruence. Qed.

Lemma append_assoc (s1 s2 s3 : string) : (s1 ++ s2) ++ s3 = s1 ++ (s2 ++ s3).
Proof. induction s1 as [|c s1 IH]; simpl; congruence. Qed.

Lemma length_append (s1 s2 : string) :
  String.length (s1 ++ s2) = (String.length s1 + String.length s2)%nat.
Proof. induction s1 as [|c s1 IH]; simpl; congruence. Qed.

Lemma append_eq_nil (s1 s2 : string) : s1 ++ s2 = "" -> s1 = "" /\ s2 = "".
Proof. destruct s1; simpl; [auto | discriminate]. Qed.

Lemma append_inv_head (s t1 t2 : string) : s ++ t1 = s ++ t2 -> t1 = t2.
Proof. induction s as [|c s IH]; simpl; intros H; [exact H | injection H; auto]. Qed.

(** ** Decimal numerals *)

Lemma digit_char_inj_val (d : N) : (d < 10)%N -> digit_val (digit_char d) = d.
Proof.
  intros H. unfold digit_val, digit_char.
  rewrite N_ascii_embedding by lia. lia.
Qed.

Lemma is_digit_digit_char (d : N) : (d < 10)%N -> is_digit (digit_char d) = true.
Proof.
  intros H. unfold is_digit, digit_char.
  rewrite N_ascii_embedding by lia.
  apply andb_true_intro; split; apply N.leb_le; lia.
Qed.


Lemma decimal_fuel_acc (f : nat) : forall n acc,
  decimal_fuel f n acc = decimal_fuel f n "" ++ acc.
Proof.
  induction f as [|f IH]; intros n acc; simpl; [reflexivity|].
  destruct (n <? 10)%N; [reflexivity|].
  rewrite IH. rewrite (IH _ (String _ "")).
  rewrite append_assoc. reflexivity.
Qed.

Lemma decimal_fuel_enough (f1 : nat) : forall f2 n acc,
  (n < 10 ^ N.of_nat (S f1))%N -> (n < 10 ^ N.of_nat (S f2))%N ->
  decimal_fuel (S f1) n acc = decimal_fuel (S f2) n acc.
Proof.
  induction f1 as [|f1 IH]; intros f2 n acc H1 H2.
  - change (10 ^ N.of_nat 1)%N with 10%N in H1.
    simpl. apply N.ltb_lt in H1. rewrite H1. reflexivity.
  - cbn [decimal_fuel]. destruct (n <? 10)%N eqn:E; [reflexivity|].
    apply N.ltb_ge in E.
    assert (Hq1 : (n / 10 < 10 ^ N.of_nat (S f1))%N).
    { apply N.Div0.div_lt_upper_bound.
      replace (N.of_nat (S (S f1))) with (N.succ (N.of_nat (S f1))) in H1 by lia.
      rewrite N.pow_succ_r' in H1. exact H1. }
    destruct f2 as [|f2].
    + change (10 ^ N.of_nat 1)%N with 10%N in H2. lia.
    + apply IH; [exact Hq1|].
      apply N.Div0.div_lt_upper_bound.
      replace (N.of_nat (S (S f2))) with (N.succ (N.of_nat (S f2))) in H2 by lia.
      rewrite N.pow_succ_r' in H2. exact H2.
Qed.

Lemma lt_pow10_log2 (n : N) : (n < 10 ^ N.of_nat (S (N.to_nat (N.log2 n))))%N.
Proof.
  replace (N.of_nat (S (N.to_nat (N.log2 n)))) with (N.succ (N.log2 n)) by lia.
  destruct (N.eq_dec n 0) as [->|Hn].
  - reflexivity.
  - apply N.lt_le_trans with (2 ^ N.succ (N.log2 n))%N.
    + apply N.log2_spec. lia.
    + apply N.pow_le_mono_l. lia.
Qed.

(** The two equations that characterise [decimal]. *)
Lemma decimal_small (n : N) : (n < 10)%N -> decimal n = String (digit_char n) "".
Proof.
  intros H. unfold decimal. cbn [decimal_fuel].
  apply N.ltb_lt in H. rewrite H.
  apply N.ltb_lt in H. rewrite N.mod_small by exact H. reflexivity.
Qed.

Lemma decimal_step (n : N) :
  (10 <= n)%N -> decimal n = decimal (n / 10) ++ String (digit_char (n mod 10)) "".
Proof.
  intros H. unfold decimal at 1. cbn [decimal_fuel].
  apply N.ltb_ge in H. rewrite H. apply N.ltb_ge in H.
  rewrite decimal_fuel_acc. f_equal.
  unfold decimal.
  assert (Hq : (n / 10 < 10 ^ N.of_nat (N.to_nat (N.log2 n)))%N).
  { apply N.Div0.div_lt_upper_bound.
    pose proof (lt_pow10_log2 n) as L.
    replace (N.of_nat (S (N.to_nat (N.log2 n))))
      with (N.succ (N.of_nat (N.to_nat (N.log2 n)))) in L by lia.
    rewrite N.pow_succ_r' in L. exact L. }
  destruct (N.to_nat (N.log2 n)) as [|f] eqn:Ef.
  - change (10 ^ N.of_nat 0)%N with 1%N in Hq.
    lia.
  - apply decimal_fuel_enough; [exact Hq | apply lt_pow10_log2].
Qed.

(** Induction on a natural number along its decimal numeral. *)
Lemma decimal_ind (P : N -> Prop) :
  (forall n, (n < 10)%N -> P n) ->
  (forall n, (10 <= n)%N -> P (n / 10)%N -> P n) ->
  forall n, P n.
Proof.
  intros Hsmall Hstep n.
  induction n as [n IH] using (well_founded_induction N.lt_wf_0).
  destruct (N.lt_ge_cases n 10) as [H|H].
  - apply Hsmall, H.
  - apply Hstep; [exact H|]. apply IH.
    apply N.div_lt; lia.
Qed.

Lemma all_digits_app (s1 s2 : string) :
  all_digits (s1 ++ s2) = all_digits s1 && all_digits s2.
Proof.
  induction s1 as [|c s1 IH]; simpl; [reflexivity|].
  rewrite IH, andb_assoc. reflexivity.
Qed.

Lemma decimal_all_digits (n : N) : all_digits (decimal n) = true.
Proof.
  induction n as [n H | n H IH] using decimal_ind.
  - rewrite decimal_small by exact H. simpl.
    rewrite is_digit_digit_char by exact H. reflexivity.
  - rewrite decimal_step by exact H.
    rewrite all_digits_app, IH. simpl.
    rewrite is_digit_digit_char; [reflexivity|]. lia.
Qed.

Lemma decimal_nonempty (n : N) : decimal n <> "".
Proof.
  destruct (N.lt_ge_cases n 10) as [H|H].
  - rewrite decimal_small by exact H. discriminate.
  - rewrite decimal_step by exact H. intros E.
    apply append_eq_nil in E. destruct E as [_ E]. discriminate.
Qed.

Create HintDb numerals.
#[local] Hint Resolve decimal_all_digits decimal_nonempty : numerals.

Lemma digits_value_from_app (s1 : string) : forall acc s2,
  digits_value_from acc (s1 ++ s2) = digits_value_from (digits_value_from acc s1) s2.
Proof. induction s1 as [|c s1 IH]; intros; simpl; [reflexivity | apply IH]. Qed.

Lemma digits_value_decimal (n : N) : digits_value (decimal n) = n.
Proof.
  unfold digits_value.
  induction n as [n H | n H IH] using decimal_ind.
  - rewrite decimal_small by exact H. simpl.
    rewrite digit_char_inj_val by exact H. reflexivity.
  - rewrite decimal_step by exact H.
    rewrite digits_value_from_app, IH. cbn [digits_value_from].
    rewrite digit_char_inj_val by lia. lia.
Qed.

Lemma decimal_inj (n m : N) : decimal n = decimal m -> n = m.
Proof.
  intros E. apply (f_equal digits_value) in E.
  rewrite !digits_value_decimal in E. exact E.
Qed.




Lemma decimal_length_le (k : nat) : forall n,
  (n < 10 ^ N.of_nat (S k))%N -> (String.length (decimal n) <= S k)%nat.
Proof.
  induction k as [|k IH]; intros n H.
  - change (10 ^ N.of_nat 1)%N with 10%N in H.
    rewrite decimal_small by exact H. simpl. lia.
  - destruct (N.lt_ge_cases n 10) as [Hs|Hs].
    + rewrite decimal_small by exact Hs. simpl. lia.
    + rewrite decimal_step by exact Hs.
      rewrite length_append. simpl.
      assert (String.length (decimal (n / 10)) <= S k)%nat; [|lia].
      apply IH. apply N.Div0.div_lt_upper_bound.
      replace (N.of_nat (S (S k))) with (N.succ (N.of_nat (S k))) in H by lia.
      rewrite N.pow_succ_r' in H. exact H.
Qed.

(** ** Rounding to a double *)

Lemma two53_eq : two53 = (2 ^ 53)%N.
Proof. reflexivity. Qed.

Lemma roundN_exact (n : N) : (n <= two53)%N -> roundN n = n.
Proof.
  intros H. unfold two53 in H.
  destruct (N.eq_dec n 9007199254740992) as [->|Hne]; [vm_compute; reflexivity|].
  assert (Hs : (N.log2 n - 52 = 0)%N).
  { destruct (N.eq_dec n 0) as [->|Hn]; [reflexivity|].
    assert (N.log2 n < 53)%N; [|lia].
    apply N.log2_lt_pow2; [lia|]. change (2 ^ 53)%N with 9007199254740992%N. lia. }
  unfold roundN. rewrite Hs. change (2 ^ 0)%N with 1%N.
  rewrite N.div_1_r, N.mod_1_r. simpl. lia.
Qed.

(** From 2^53 on rounding never goes below 2^53, and only 2^53 and 2^53+1
    round to 2^53. *)
Lemma roundN_large (n : N) :
  (two53 <= n)%N ->
  (two53 <= roundN n)%N /\ (roundN n = two53 -> n <= two53 + 1)%N.
Proof.
  unfold two53. intros H.
  assert (Hn : (0 < n)%N) by lia.
  pose proof (N.log2_spec n Hn) as [Hlo Hhi].
  assert (Hb : (53 <= N.log2 n)%N).
  { apply N.log2_le_pow2; [exact Hn|].
    change (2 ^ 53)%N with 9007199254740992%N. exact H. }
  set (shift := (N.log2 n - 52)%N) in *.
  assert (Hsh : N.log2 n = (52 + shift)%N) by (unfold shift; lia).
  rewrite Hsh in Hlo. rewrite Hsh in Hhi.
  replace (N.succ (52 + shift)) with (53 + shift)%N in Hhi by lia.
  rewrite N.pow_add_r in Hlo, Hhi.
  change (2 ^ 52)%N with 4503599627370496%N in Hlo.
  change (2 ^ 53)%N with 9007199254740992%N in Hhi.
  assert (Hp2 : (2 <= 2 ^ shift)%N).
  { change 2%N with (2 ^ 1)%N at 1. apply N.pow_le_mono_r; unfold shift; lia. }
  unfold roundN. fold shift.
  set (p := (2 ^ shift)%N) in *.
  pose proof (N.Div0.div_mod n p) as Hdm.
  assert (Hr : (n mod p < p)%N) by (apply N.mod_lt; lia).
  set (q := (n / p)%N) in *. set (r := (n mod p)%N) in *.
  assert (Hq : (4503599627370496 <= q)%N).
  { unfold q. apply N.div_le_lower_bound; [lia|]. lia. }
  assert (Hqp : (9007199254740992 <= q * p)%N) by nia.
  destruct ((p <? 2 * r) || ((2 * r =? p) && N.odd q))%N eqn:E.
  - split; [nia|]. intros Hr53. exfalso. nia.
  - split; [exact Hqp|]. intros Hr53.
    assert (p = 2)%N by nia. nia.
Qed.

Lemma two53_lt_overflow : (two53 < overflow_threshold)%N.
Proof. vm_compute. reflexivity. Qed.

Lemma F_exact (n : N) : (n <= two53)%N -> F (Z.of_N n) = Fin (Z.of_N n).
Proof.
  intros H. unfold F.
  rewrite Zabs2N.id, roundN_exact by exact H.
  pose proof two53_lt_overflow as Ho.
  destruct (overflow_threshold <=? n)%N eqn:E.
  - apply N.leb_le in E. lia.
  - f_equal. destruct n; simpl; lia.
Qed.

Lemma add1_exact (n : N) :
  (n < two53)%N -> add1 (Fin (Z.of_N n)) = Fin (Z.of_N (n + 1)).
Proof.
  intros H. unfold add1.
  replace (Z.of_N n + 1)%Z with (Z.of_N (n + 1)) by lia.
  apply F_exact. lia.
Qed.

(** At 2^53 the increment is absorbed by rounding. *)
Lemma add1_two53 : add1 (Fin (Z.of_N two53)) = Fin (Z.of_N two53).
Proof. vm_compute. reflexivity. Qed.

(** ** Number::toString on the exact range *)

Lemma shortest_repr_from_exact (v : N) (e : nat) :
  (v <= two53)%N -> shortest_repr_from v e = v.
Proof.
  intros Hv. induction e as [|e IH]; [reflexivity|].
  cbn [shortest_repr_from].
  set (p := (10 ^ N.of_nat (S e))%N).
  assert (Hp : (p = 10 * 10 ^ N.of_nat e)%N).
  { unfold p. replace (N.of_nat (S e)) with (N.succ (N.of_nat e)) by lia.
    apply N.pow_succ_r'. }
  assert (Hp0 : (0 < 10 ^ N.of_nat e)%N) by (apply N.neq_0_lt_0, N.pow_nonzero; lia).
  set (p' := (10 ^ N.of_nat e)%N) in *.
  pose proof (N.Div0.div_mod v p) as Hdm.
  assert (Hr : (v mod p < p)%N) by (apply N.mod_lt; lia).
  set (lo := (v / p)%N) in *.
  assert (Hlo : (lo * p <= v)%N) by lia.
  assert (Hhi : (v < (lo + 1) * p)%N) by lia.
  assert (Hhi_ok : (roundN ((lo + 1) * p) =? v)%N = false).
  { apply N.eqb_neq. intros E.
    destruct (N.le_gt_cases ((lo + 1) * p) two53) as [Hle|Hgt].
    - rewrite roundN_exact in E by exact Hle. lia.
    - destruct (roundN_large ((lo + 1) * p)) as [H1 H2]; [lia|].
      rewrite E in H1, H2.
      assert (Hv53 : v = two53) by lia.
      specialize (H2 Hv53).
      assert (Heq : ((lo + 1) * p = two53 + 1)%N) by lia.
      rewrite Hp in Heq. unfold two53 in Heq. lia. }
  rewrite Hhi_ok.
  destruct ((0 <? lo) && (roundN (lo * p) =? v))%N eqn:Elo; [|exact IH].
  apply andb_true_iff in Elo. destruct Elo as [_ Elo].
  apply N.eqb_eq in Elo.
  rewrite roundN_exact in Elo by lia. exact Elo.
Qed.

Lemma pos_toString_exact (v : N) : (v <= two53)%N -> pos_toString v = decimal v.
Proof.
  intros Hv. unfold pos_toString, shortest_repr.
  rewrite shortest_repr_from_exact by exact Hv.
  assert (L : (String.length (decimal v) <= 21)%nat).
  { apply decimal_length_le. unfold two53 in Hv.
    change (10 ^ N.of_nat 21)%N with 1000000000000000000000%N. lia. }
  apply Nat.leb_le in L. rewrite L. reflexivity.
Qed.

Lemma Number_toString_exact (n : N) :
  (n <= two53)%N -> Number_toString (Fin (Z.of_N n)) = decimal n.
Proof.
  intros H. unfold Number_toString.
  destruct n as [|q]; [reflexivity|].
  cbn [Z.of_N Z.eqb Z.ltb Z.compare Z.abs_N].
  apply pos_toString_exact, H.
Qed.

(** ** Digit runs and the version pattern *)

Lemma span_digits_all (a : string) :
  all_digits a = true -> span_digits a = (a, "").
Proof.
  induction a as [|c a IH]; simpl; intros H; [reflexivity|].
  apply andb_true_iff in H. destruct H as [Hc Ha].
  rewrite Hc, (IH Ha). reflexivity.
Qed.

Lemma span_digits_app (a : string) (c : ascii) (r : string) :
  all_digits a = true -> is_digit c = false ->
  span_digits (a ++ String c r) = (a, String c r).
Proof.
  intros Ha Hc. induction a as [|d a IH]; simpl.
  - rewrite Hc. reflexivity.
  - simpl in Ha. apply andb_true_iff in Ha. destruct Ha as [Hd Ha].
    rewrite Hd, (IH Ha). reflexivity.
Qed.

Lemma span_digits_spec (s : string) : forall a r,
  span_digits s = (a, r) ->
  s = a ++ r /\ all_digits a = true /\
  match r with String c _ => is_digit c = false | EmptyString => True end.
Proof.
  induction s as [|c s IH]; simpl; intros a r H.
  - injection H as <- <-. auto.
  - destruct (is_digit c) eqn:Hc.
    + destruct (span_digits s) as [d rest] eqn:E.
      injection H as <- <-.
      destruct (IH d rest eq_refl) as (-> & Hd & Hrest).
      simpl. rewrite Hc, Hd. auto.
    + injection H as <- <-. simpl. auto.
Qed.

Lemma is_digit_dot : is_digit "." = false.
Proof. reflexivity. Qed.

(** The matcher finds every string of the shape digits.digits.digits ... *)
Lemma versionRegex_exec_complete (a b c : string) :
  a <> "" -> b <> "" -> c <> "" ->
  all_digits a = true -> all_digits b = true -> all_digits c = true ->
  versionRegex_exec (a ++ "." ++ b ++ "." ++ c) = Some (a, b, c).
Proof.
  intros Na Nb Nc Ha Hb Hc. unfold versionRegex_exec.
  change ("." ++ b ++ "." ++ c) with (String "." (b ++ "." ++ c)).
  rewrite (span_digits_app a _ _ Ha is_digit_dot).
  destruct a as [|a0 a]; [congruence|].
  change ("." ++ c) with (String "." c).
  rewrite (span_digits_app b _ _ Hb is_digit_dot).
  destruct b as [|b0 b]; [congruence|].
  rewrite (span_digits_all c Hc).
  destruct c as [|c0 c]; [congruence|]. reflexivity.
Qed.

(** ... and nothing else. *)
Lemma versionRegex_exec_sound (s a b c : string) :
  versionRegex_exec s = Some (a, b, c) ->
  s = a ++ "." ++ b ++ "." ++ c /\
  (a <> "" /\ all_digits a = true) /\
  (b <> "" /\ all_digits b = true) /\
  (c <> "" /\ all_digits c = true).
Proof.
  unfold versionRegex_exec.
  destruct (span_digits s) as [a' r0] eqn:E0.
  apply span_digits_spec in E0. destruct E0 as (-> & Ha & _).
  destruct a' as [|a0 a']; [discriminate|].
  destruct r0 as [|x r1]; [discriminate|].
  destruct (Ascii.eqb_spec x ".") as [->|Hx].
  2:{ destruct x as [[] [] [] [] [] [] [] []]; try discriminate. congruence. }
  destruct (span_digits r1) as [b' r2] eqn:E1.
  apply span_digits_spec in E1. destruct E1 as (-> & Hb & _).
  destruct b' as [|b0 b']; [discriminate|].
  destruct r2 as [|y r2]; [discriminate|].
  destruct (Ascii.eqb_spec y ".") as [->|Hy].
  2:{ destruct y as [[] [] [] [] [] [] [] []]; try discriminate. congruence. }
  destruct (span_digits r2) as [c' r3] eqn:E2.
  apply span_digits_spec in E2. destruct E2 as (-> & Hc & _).
  destruct c' as [|c0 c']; [discriminate|].
  destruct r3; [|discriminate].
  intros H. injection H as <- <- <-.
  rewrite append_nil_r.
  repeat split; try assumption; discriminate.
Qed.

Lemma re_match_seq_inv (r1 r2 : regex) (s : string) :
  re_match (ReSeq r1 r2) s ->
  exists s1 s2, s = s1 ++ s2 /\ re_match r1 s1 /\ re_match r2 s2.
Proof. intros H. inversion H; subst. eauto. Qed.

Lemma re_match_char_inv (c : ascii) (s : string) :
  re_match (ReChar c) s -> s = String c "".
Proof. intros H. inversion H; subst. reflexivity. Qed.

Lemma re_match_digit_inv (s : string) :
  re_match ReDigit s -> exists c, s = String c "" /\ is_digit c = true.
Proof. intros H. inversion H; subst. eauto. Qed.

Lemma re_match_digits (s : string) :
  re_match (RePlus ReDigit) s <-> s <> "" /\ all_digits s = true.
Proof.
  split.
  - intros H. remember (RePlus ReDigit) as r eqn:Er.
    induction H as [ | | | r s H _ | r s1 s2 H1 _ H2 IH2]; try discriminate.
    + injection Er as ->.
      apply re_match_digit_inv in H. destruct H as (c & -> & Hc). simpl.
      split; [discriminate|]. rewrite Hc. reflexivity.
    + injection Er as ->.
      apply re_match_digit_inv in H1. destruct H1 as (c & -> & Hc).
      destruct (IH2 eq_refl) as [_ Hd]. simpl.
      split; [discriminate|]. rewrite Hc, Hd. reflexivity.
  - intros [Hne Hd]. induction s as [|c s IH]; [congruence|].
    simpl in Hd. apply andb_true_iff in Hd. destruct Hd as [Hc Hs].
    destruct s as [|c' s'].
    + apply MPlusOne, MDigit, Hc.
    + change (String c (String c' s')) with (String c "" ++ String c' s').
      apply MPlusMore; [apply MDigit, Hc|].
      apply IH; [discriminate | exact Hs].
Qed.

(** The strings of the version pattern are those of the shape
    digits.digits.digits. *)
Lemma re_match_versionRegex (s : string) :
  re_match versionRegex s <->
  exists a b c,
    s = a ++ "." ++ b ++ "." ++ c /\
    (a <> "" /\ all_digits a = true) /\
    (b <> "" /\ all_digits b = true) /\
    (c <> "" /\ all_digits c = true).
Proof.
  unfold versionRegex. split.
  - intros H.
    apply re_match_seq_inv in H. destruct H as (a & s1 & -> & Ha & H).
    apply re_match_seq_inv in H. destruct H as (d1 & s2 & -> & Hd1 & H).
    apply re_match_seq_inv in H. destruct H as (b & s3 & -> & Hb & H).
    apply re_match_seq_inv in H. destruct H as (d2 & c & -> & Hd2 & Hc).
    apply re_match_char_inv in Hd1, Hd2. subst d1 d2.
    exists a, b, c. rewrite <- !re_match_digits. auto.
  - intros (a & b & c & -> & Ha & Hb & Hc).
    rewrite <- re_match_digits in Ha, Hb, Hc.
    repeat (apply MSeq; try assumption); apply MChar.
Qed.

(** [match] returns the captures exactly on the strings of the pattern. *)
Lemma versionRegex_exec_Some (s : string) :
  re_match versionRegex s <-> exists a b c, versionRegex_exec s = Some (a, b, c).
Proof.
  rewrite re_match_versionRegex. split.
  - intros (a & b & c & -> & [Na Ha] & [Nb Hb] & [Nc Hc]).
    exists a, b, c. apply versionRegex_exec_complete; assumption.
  - intros (a & b & c & H). exists a, b, c.
    apply versionRegex_exec_sound, H.
Qed.

Lemma versionRegex_exec_None (s : string) :
  ~ re_match versionRegex s <-> versionRegex_exec s = None.
Proof.
  rewrite versionRegex_exec_Some. split.
  - intros H. destruct (versionRegex_exec s) as [[[a b] c]|] eqn:E; [|reflexivity].
    exfalso. apply H. eauto.
  - intros E (a & b & c & H). congruence.
Qed.

(** ** The numbers of a version *)

Lemma succ53_le (n : N) : (succ53 n <= two53)%N.
Proof. unfold succ53. lia. Qed.

Lemma succ53_below (n : N) : (n < two53)%N -> succ53 n = (n + 1)%N.
Proof. unfold succ53. lia. Qed.

Lemma add1_succ53 (n : N) :
  (n <= two53)%N -> add1 (Fin (Z.of_N n)) = Fin (Z.of_N (succ53 n)).
Proof.
  intros H. destruct (N.eq_dec n two53) as [->|Hne].
  - rewrite add1_two53. reflexivity.
  - rewrite add1_exact by lia. rewrite succ53_below by lia. reflexivity.
Qed.

Lemma is_zero_Fin (n : N) : is_zero (Fin (Z.of_N n)) = (n =? 0)%N.
Proof. destruct n; reflexivity. Qed.

Lemma Number_of_digits_exact (a : string) :
  (digits_value a <= two53)%N ->
  Number_of_digits a = Fin (Z.of_N (digits_value a)).
Proof. intros H. apply F_exact, H. Qed.

Lemma components_version_string (major minor patch : N) :
  components (version_string major minor patch) = Some (major, minor, patch).
Proof.
  unfold components, version_string.
  rewrite versionRegex_exec_complete by auto with numerals.
  rewrite !digits_value_decimal. reflexivity.
Qed.

(** ** [calculateNextVersion] on numbers within the exact range *)

Lemma calculateNextVersion_components (s : string) (increment : option string)
    (major minor patch : N) (w : World) :
  components s = Some (major, minor, patch) ->
  (major <= two53)%N -> (minor <= two53)%N -> (patch <= two53)%N ->
  calculateNextVersion s increment w =
  (Return (version_string_of
             (vm_step (match increment with Some i => i | None => "patch" end)
                      (major, minor, patch))), w).
Proof.
  unfold components. intros Hc HM Hm Hp.
  destruct (versionRegex_exec s) as [[[a b] c]|] eqn:E; [|discriminate].
  injection Hc as <- <- <-.
  unfold calculateNextVersion. rewrite E.
  rewrite !Number_of_digits_exact by assumption.
  unfold vm_step, version_string_of, version_string, ret.
  set (i := match increment with Some i => i | None => "patch" end).
  destruct (i =? "major").
  - rewrite add1_succ53 by assumption.
    rewrite Number_toString_exact by apply succ53_le. reflexivity.
  - destruct (i =? "minor").
    + rewrite add1_succ53 by assumption.
      rewrite !Number_toString_exact by (assumption || apply succ53_le).
      reflexivity.
    + rewrite is_zero_Fin. destruct (digits_value c =? 0)%N.
      * rewrite !Number_toString_exact by assumption. reflexivity.
      * rewrite add1_succ53 by assumption.
        rewrite !Number_toString_exact by (assumption || apply succ53_le).
        reflexivity.
Qed.

Lemma vm_step_within (i : string) (major minor patch : N) :
  (major <= two53)%N -> (minor <= two53)%N -> (patch <= two53)%N ->
  let '(major', minor', patch') := vm_step i (major, minor, patch) in
  (major' <= two53)%N /\ (minor' <= two53)%N /\ (patch' <= two53)%N.
Proof.
  intros HM Hm Hp. unfold vm_step.
  pose proof (succ53_le major). pose proof (succ53_le minor).
  pose proof (succ53_le patch).
  destruct (i =? "major"); [unfold two53 in *; lia|].
  destruct (i =? "minor"); [unfold two53 in *; lia|].
  destruct (patch =? 0)%N; unfold two53 in *; lia.
Qed.

Lemma vm_step_kind (k : IncrementKind) (major minor patch : N) :
  (major < two53)%N -> (minor < two53)%N -> (patch < two53)%N ->
  vm_step (kind_name k) (major, minor, patch) = spec_nextVersion k (major, minor, patch).
Proof.
  intros HM Hm Hp. destruct k; cbn; rewrite ?succ53_below by assumption; reflexivity.
Qed.

(** ** [split], [parseInt] and the script on a canonical version *)

Section Split.
Variable sep : ascii.

Lemma all_digits_no_char (s : string) :
  is_digit sep = false -> all_digits s = true -> no_char sep s = true.
Proof.
  intros Hc. induction s as [|d s IH]; simpl; intros H; [reflexivity|].
  apply andb_true_iff in H. destruct H as [Hd Hs].
  rewrite (IH Hs), andb_true_r.
  destruct (Ascii.eqb_spec d sep) as [->|]; [congruence | reflexivity].
Qed.

(** Without a separator in it, a string is its only part. *)
Lemma split_no_sep (a : string) :
  no_char sep a = true -> split sep a = [a].
Proof.
  induction a as [|d a IH]; simpl; intros H; [reflexivity|].
  apply andb_true_iff in H. destruct H as [Hd Ha].
  apply negb_true_iff in Hd. rewrite Hd, (IH Ha). reflexivity.
Qed.

(** The first part ends at the first separator. *)
Lemma split_app (a r : string) :
  no_char sep a = true -> split sep (a ++ String sep r) = a :: split sep r.
Proof.
  induction a as [|d a IH]; simpl; intros H.
  - rewrite Ascii.eqb_refl. reflexivity.
  - apply andb_true_iff in H. destruct H as [Hd Ha].
    apply negb_true_iff in Hd. rewrite Hd, (IH Ha). reflexivity.
Qed.
End Split.

Lemma split_version_string (major minor patch : N) :
  split "." (version_string major minor patch)
  = [decimal major; decimal minor; decimal patch].
Proof.
  unfold version_string.
  assert (D : forall n, no_char "." (decimal n) = true).
  { intros n. apply all_digits_no_char; auto with numerals. }
  change ("." ++ decimal minor ++ "." ++ decimal patch)
    with (String "." (decimal minor ++ String "." (decimal patch))).
  rewrite split_app by apply D.
  rewrite split_app by apply D.
  rewrite split_no_sep by apply D. reflexivity.
Qed.

Lemma is_digit_cases (c : ascii) :
  is_digit c = true ->
  c = "0"%char \/ c = "1"%char \/ c = "2"%char \/ c = "3"%char \/ c = "4"%char \/
  c = "5"%char \/ c = "6"%char \/ c = "7"%char \/ c = "8"%char \/ c = "9"%char.
Proof.
  destruct c as [[] [] [] [] [] [] [] []]; intros H;
    try discriminate H; tauto.
Qed.

Lemma trim_start_digit (c : ascii) (r : string) :
  is_digit c = true -> trim_start (String c r) = String c r.
Proof.
  intros Hc. apply is_digit_cases in Hc.
  repeat (destruct Hc as [-> | Hc]); try subst c; reflexivity.
Qed.

Lemma strip_sign_digit (c : ascii) (r : string) :
  is_digit c = true -> strip_sign (String c r) = (false, String c r).
Proof.
  intros Hc. apply is_digit_cases in Hc.
  repeat (destruct Hc as [-> | Hc]); try subst c; reflexivity.
Qed.

Lemma parseInt10_digits (a : string) :
  a <> "" -> all_digits a = true ->
  parseInt10 (VString a) = F (Z.of_N (digits_value a)).
Proof.
  intros Hne Hd. destruct a as [|c r]; [congruence|].
  pose proof (span_digits_all _ Hd) as Hs.
  simpl in Hd. apply andb_true_iff in Hd. destruct Hd as [Hc _].
  unfold parseInt10. cbn [ToString].
  rewrite (trim_start_digit c r Hc), (strip_sign_digit c r Hc), Hs.
  reflexivity.
Qed.

Lemma parseInt10_decimal (n : N) :
  (n <= two53)%N -> parseInt10 (VString (decimal n)) = Fin (Z.of_N n).
Proof.
  intros H.
  rewrite parseInt10_digits by auto with numerals.
  rewrite digits_value_decimal. apply F_exact, H.
Qed.

Lemma lt100_Fin (n : N) : lt100 (Fin (Z.of_N n)) = (n <? 100)%N.
Proof.
  unfold lt100.
  destruct (Z.ltb_spec (Z.of_N n) 100), (N.ltb_spec n 100); try reflexivity; lia.
Qed.

Lemma Number_toString_zero : Number_toString (Fin 0) = decimal 0.
Proof. reflexivity. Qed.

Lemma Number_toString_hundred : Number_toString (Fin 100) = decimal 100.
Proof. reflexivity. Qed.

(** Run the script's body once the selector is known: decide the string
    comparisons of the [switch], then evaluate the array operations. *)
Ltac run_switch :=
  repeat match goal with
         | |- context [String.eqb ?a ?b] =>
             let v := eval vm_compute in (String.eqb a b) in
             change (String.eqb a b) with v
         end;
  cbv iota;
  cbn [map array_get array_set nth].

Lemma upgradePackageJSONVersion_canonical (k : IncrementKind)
    (major minor patch : N) (w : World) :
  package_version w = version_string major minor patch ->
  (parsed_component k (major, minor, patch) <= two53)%N ->
  UpgradeVersion.upgradePackageJSONVersion (kind_name k) w =
  (Return (version_string_of (script_step k (major, minor, patch))),
   with_stdout w (version_string_of (script_step k (major, minor, patch)))).
Proof.
  intros Hpkg Hk.
  unfold UpgradeVersion.upgradePackageJSONVersion, bind at 1, read_package_version.
  rewrite Hpkg, split_version_string.
  destruct k; cbn [kind_name parsed_component] in *; run_switch;
    rewrite parseInt10_decimal by assumption;
    rewrite add1_succ53 by assumption.
  - unfold try_catch, bind, ret, console_log, with_stdout, join.
    cbn [map join_elem ToString String.concat script_step version_string_of].
    rewrite Number_toString_exact by apply succ53_le.
    rewrite Number_toString_zero. reflexivity.
  - unfold try_catch, bind, ret, console_log, with_stdout, join.
    cbn [map join_elem ToString String.concat script_step version_string_of].
    rewrite Number_toString_exact by apply succ53_le.
    rewrite Number_toString_zero. reflexivity.
  - rewrite lt100_Fin. unfold script_step, script_patch.
    destruct (succ53 patch <? 100)%N;
      unfold try_catch, bind, ret, console_log, with_stdout, join;
      cbn [map join_elem ToString String.concat version_string_of].
    + rewrite Number_toString_hundred. reflexivity.
    + rewrite Number_toString_exact by apply succ53_le. reflexivity.
Qed.

(** Whatever the manifest holds, the script's body ends normally for a
    recognized selector: it has no format check. *)
Lemma upgradePackageJSONVersion_returns (k : IncrementKind) (w : World) :
  exists out,
    UpgradeVersion.upgradePackageJSONVersion (kind_name k) w
    = (Return out, with_stdout w out).
Proof.
  unfold UpgradeVersion.upgradePackageJSONVersion, bind at 1, read_package_version.
  destruct k; cbn [kind_name]; run_switch.
  - eexists. reflexivity.
  - eexists. reflexivity.
  - match goal with |- context [lt100 ?x] => destruct (lt100 x) end;
      eexists; reflexivity.
Qed.

Lemma main_recognized (k : IncrementKind) (w : World) :
  argv2 w = Some (kind_name k) ->
  UpgradeVersion.main w = UpgradeVersion.upgradePackageJSONVersion (kind_name k) w.
Proof.
  intros Hargv.
  unfold UpgradeVersion.main, UpgradeVersion.versionBumpType, bind at 1 2,
    process_argv2, ret at 1.
  rewrite Hargv. destruct k; reflexivity.
Qed.

Lemma main_canonical (k : IncrementKind) (major minor patch : N) (w : World) :
  argv2 w = Some (kind_name k) ->
  package_version w = version_string major minor patch ->
  (parsed_component k (major, minor, patch) <= two53)%N ->
  UpgradeVersion.main w =
  (Return (version_string_of (script_step k (major, minor, patch))),
   with_stdout w (version_string_of (script_step k (major, minor, patch)))).
Proof.
  intros Hargv Hpkg Hk.
  rewrite (main_recognized k w Hargv).
  apply upgradePackageJSONVersion_canonical; assumption.
Qed.

(** ** Versions as strings and as numbers *)

Lemma version_string_of_inj (t1 t2 : N * N * N) :
  version_string_of t1 = version_string_of t2 -> t1 = t2.
Proof.
  destruct t1 as [[M1 m1] p1], t2 as [[M2 m2] p2]. cbn [version_string_of].
  intros E. apply (f_equal components) in E.
  rewrite !components_version_string in E. congruence.
Qed.

Lemma re_match_version_string (major minor patch : N) :
  re_match versionRegex (version_string major minor patch).
Proof.
  apply re_match_versionRegex.
  exists (decimal major), (decimal minor), (decimal patch).
  repeat split; auto with numerals.
Qed.

Lemma within_limit_version_string (major minor patch : N) :
  (major <= two53)%N -> (minor <= two53)%N -> (patch <= two53)%N ->
  within_limit (version_string major minor patch) = true.
Proof.
  intros HM Hm Hp. unfold within_limit.
  rewrite components_version_string.
  apply N.leb_le in HM, Hm, Hp. rewrite HM, Hm, Hp. reflexivity.
Qed.

Lemma within_limit_components (s : string) :
  within_limit s = true ->
  exists major minor patch,
    components s = Some (major, minor, patch) /\
    (major <= two53)%N /\ (minor <= two53)%N /\ (patch <= two53)%N.
Proof.
  unfold within_limit.
  destruct (components s) as [[[M m] p]|]; [|discriminate].
  intros H. apply andb_true_iff in H. destruct H as [H Hp].
  apply andb_true_iff in H. destruct H as [HM Hm].
  apply N.leb_le in HM, Hm, Hp. eauto 7.
Qed.

(** Applying the specification's policy changes the version. *)
Lemma spec_nextVersion_moves (k : IncrementKind) (t : N * N * N) :
  spec_nextVersion k t <> t.
Proof.
  destruct t as [[M m] p]. destruct k; cbn; intros E; injection E; try lia.
  destruct (N.eqb_spec p 0); lia.
Qed.

Lemma script_step_moves (k : IncrementKind) (major minor patch : N) :
  (major < two53)%N -> (minor < two53)%N -> (patch < two53)%N ->
  script_step k (major, minor, patch) <> (major, minor, patch).
Proof.
  intros HM Hm Hp. destruct k; cbn; unfold script_patch;
    rewrite ?succ53_below by assumption; intros E; injection E; try lia.
  destruct (N.ltb_spec (patch + 1) 100); lia.
Qed.

(** ** What [Number::toString] never prints: a leading zero *)







(** ** Leading zeros of a numeral *)




(** ** The calendar *)

Lemma DayFromYear_period (y e : Z) :
  DayFromYear (y + e * 400) = (DayFromYear y + 146097 * e)%Z.
Proof. unfold DayFromYear. lia. Qed.

(** The closed form agrees with the definitions of the language standard:
    the year is the one whose days include the day number, the month is
    the one of the table, the date counts from 1 within the month. *)
Lemma civil_from_days_spec (day : Z) :
  let '(y, m, d) := civil_from_days day in
  (1 <= m <= 12 /\
   month_start m (InLeapYear y) <= day - DayFromYear y
     < month_start (m + 1) (InLeapYear y) /\
   d = day - DayFromYear y - month_start m (InLeapYear y) + 1)%Z.
Proof.
  unfold civil_from_days. cbv zeta.
  set (z := (day + 719468)%Z).
  set (era := (z / 146097)%Z).
  set (doe := (z - era * 146097)%Z).
  assert (Hdoe : (0 <= doe <= 146096)%Z) by (unfold doe, era; lia).
  assert (Hday : (day = doe + 146097 * era - 719468)%Z) by (unfold doe, z; lia).
  clearbody doe era. clear z. subst day.
  set (yoe := ((doe - doe / 1460 + doe / 36524 - doe / 146096) / 365)%Z).
  set (doy := (doe - (365 * yoe + yoe / 4 - yoe / 100))%Z).
  set (mp := ((5 * doy + 2) / 153)%Z).
  assert (Hmp : (0 <= mp <= 11)%Z) by (unfold mp, doy, yoe; lia).
  assert (Hc : (mp = 0 \/ mp = 1 \/ mp = 2 \/ mp = 3 \/ mp = 4 \/ mp = 5 \/ mp = 6
                \/ mp = 7 \/ mp = 8 \/ mp = 9 \/ mp = 10 \/ mp = 11)%Z) by lia.
  assert (Hmpd : (153 * mp <= 5 * doy + 2 < 153 * mp + 153)%Z) by (unfold mp; lia).
  clearbody mp.
  unfold InLeapYear, month_start.
  repeat (destruct Hc as [Hc|Hc]); subst mp;
    repeat match goal with
           | |- context [if ?b then _ else _] =>
               let v := eval vm_compute in b in change b with v; cbv iota
           end.
  all: replace (yoe + era * 400 + 0 + 1)%Z with (yoe + 1 + era * 400)%Z by lia.
  all: replace (yoe + era * 400 + 1 + 1)%Z with (yoe + 2 + era * 400)%Z by lia.
  all: replace (yoe + era * 400 + 0)%Z with (yoe + era * 400)%Z by lia.
  all: replace (yoe + era * 400 + 1)%Z with (yoe + 1 + era * 400)%Z by lia.
  all: rewrite !DayFromYear_period.
  all: unfold DayFromYear.
  all: unfold doy, yoe in *.
  all: lia.
Qed.

Lemma InLeapYear_range (y : Z) : (0 <= InLeapYear y <= 1)%Z.
Proof. unfold InLeapYear, DayFromYear. lia. Qed.

(** [YearFromTime t] is the year whose days include [Day t]; the month is
    between 1 and 12 and the date between 1 and 31. *)
Lemma date_fields_spec (t : Z) :
  (DayFromYear (YearFromTime t) <= Day t < DayFromYear (YearFromTime t + 1)
   /\ 1 <= MonthFromTime t <= 12 /\ 1 <= DateFromTime t <= 31)%Z.
Proof.
  unfold YearFromTime, MonthFromTime, DateFromTime.
  pose proof (civil_from_days_spec (Day t)) as H.
  destruct (civil_from_days (Day t)) as [[y m] d]. cbn [fst snd].
  destruct H as (Hm & Hd & ->).
  pose proof (InLeapYear_range y) as Hl.
  assert (Hy : (DayFromYear (y + 1) = DayFromYear y + 365 + InLeapYear y)%Z)
    by (unfold InLeapYear; lia).
  unfold month_start in *.
  assert (Hc : (m = 1 \/ m = 2 \/ m = 3 \/ m = 4 \/ m = 5 \/ m = 6 \/ m = 7
                \/ m = 8 \/ m = 9 \/ m = 10 \/ m = 11 \/ m = 12)%Z) by lia.
  repeat (destruct Hc as [Hc|Hc]); subst m;
    repeat match type of Hd with
           | context [if ?b then _ else _] =>
               let v := eval vm_compute in b in change b with v in Hd; cbv iota in Hd
           end;
    repeat match goal with
           | |- context [if ?b then _ else _] =>
               let v := eval vm_compute in b in change b with v; cbv iota
           end;
    lia.
Qed.

Lemma length_zeros (n : nat) : String.length (zeros n) = n.
Proof. induction n as [|n IH]; simpl; congruence. Qed.

Lemma pad_length (width : nat) (n : Z) :
  (0 <= n < 10 ^ Z.of_nat (S width))%Z ->
  String.length (pad (S width) n) = S width.
Proof.
  intros H. unfold pad.
  rewrite length_append, length_zeros.
  assert (L : (String.length (decimal (Z.to_N n)) <= S width)%nat); [|lia].
  apply decimal_length_le.
  apply N2Z.inj_lt. rewrite Z2N.id by lia.
  rewrite N2Z.inj_pow. rewrite nat_N_Z. exact (proj2 H).
Qed.

(** In the years 0 to 9999 the date part has the ten characters of
    YYYY-MM-DD. *)
Lemma iso_date_length (t : Z) :
  (0 <= YearFromTime t <= 9999)%Z -> String.length (iso_date t) = 10%nat.
Proof.
  intros Hy. destruct (date_fields_spec t) as (_ & Hm & Hd).
  unfold iso_date, iso_year.
  destruct (Z.leb_spec 0 (YearFromTime t)); [|lia].
  destruct (Z.leb_spec (YearFromTime t) 9999); [|lia].
  cbn [andb]. rewrite !length_append.
  rewrite (pad_length 3), !(pad_length 1); [reflexivity | | | ];
    (split; [lia|]).
  - change (10 ^ Z.of_nat 2)%Z with 100%Z. lia.
  - change (10 ^ Z.of_nat 2)%Z with 100%Z. lia.
  - change (10 ^ Z.of_nat 4)%Z with 10000%Z. lia.
Qed.

(** ** The date part of the ISO format *)

Lemma no_char_app (c : ascii) (s1 s2 : string) :
  no_char c (s1 ++ s2) = no_char c s1 && no_char c s2.
Proof.
  induction s1 as [|d s1 IH]; simpl; [reflexivity|].
  rewrite IH, andb_assoc. reflexivity.
Qed.

Lemma no_char_zeros (c : ascii) (n : nat) :
  is_digit c = false -> no_char c (zeros n) = true.
Proof.
  intros Hc. induction n as [|n IH]; cbn [zeros no_char]; [reflexivity|].
  rewrite IH, andb_true_r.
  destruct (Ascii.eqb_spec "0"%char c) as [<-|]; [discriminate Hc | reflexivity].
Qed.

Lemma no_char_pad (c : ascii) (width : nat) (n : Z) :
  is_digit c = false -> no_char c (pad width n) = true.
Proof.
  intros Hc. unfold pad.
  rewrite no_char_app, no_char_zeros by exact Hc.
  apply all_digits_no_char; auto with numerals.
Qed.

Lemma no_T_iso_date (t : Z) : no_char "T" (iso_date t) = true.
Proof.
  unfold iso_date, iso_year.
  repeat match goal with
         | |- context [if ?b then _ else _] => destruct b
         end;
    rewrite ?no_char_app, ?no_char_pad by reflexivity; reflexivity.
Qed.

Lemma hd_split_app (sep : ascii) (a r : string) :
  no_char sep a = true -> hd "" (split sep (a ++ String sep r)) = a.
Proof. intros H. rewrite split_app by exact H. reflexivity. Qed.

(** [new Date().toISOString().split('T')[0]] is the date part. *)
Lemma currentDate_is_iso_date (t : Z) :
  hd "" (split "T" (toISOString t)) = iso_date t.
Proof.
  unfold toISOString.
  change ("T" ++ iso_time t ++ "Z") with (String "T" (iso_time t ++ "Z")).
  apply hd_split_app, no_T_iso_date.
Qed.

(* ===================================================================== *)
(** * The expectations of the test suite, replayed *)
(* ===================================================================== *)

Example test_patch_0_to_100 :
  fst (calculateNextVersion "1.2.0" None (example_world None "1.2.0")) = Return "1.2.100".
Proof. vm_compute. reflexivity. Qed.

Example test_patch_100_onwards :
  fst (calculateNextVersion "1.2.100" None (example_world None "1.2.0")) = Return "1.2.101"
  /\ fst (calculateNextVersion "1.2.101" None (example_world None "1.2.0")) = Return "1.2.102"
  /\ fst (calculateNextVersion "1.2.150" None (example_world None "1.2.0")) = Return "1.2.151".
Proof. repeat split; vm_compute; reflexivity. Qed.

Example test_minor_and_major :
  fst (calculateNextVersion "1.2.105" (Some "minor") (example_world None "1.2.0"))
  = Return "1.3.0"
  /\ fst (calculateNextVersion "1.2.105" (Some "major") (example_world None "1.2.0"))
     = Return "2.0.0".
Proof. split; vm_compute; reflexivity. Qed.

Example test_high_patch :
  fst (calculateNextVersion "5.10.999" None (example_world None "1.2.0"))
  = Return "5.10.1000".
Proof. vm_compute. reflexivity. Qed.

Example test_invalid_format :
  fst (calculateNextVersion "invalid.version" None (example_world None "1.2.0"))
  = Throw "Invalid version format: invalid.version"
  /\ fst (calculateNextVersion "1.a.3" None (example_world None "1.2.0"))
     = Throw "Invalid version format: 1.a.3".
Proof. split; vm_compute; reflexivity. Qed.

Example test_changelog_entry :
  fst (ChangelogManager.generateChangelogEntry "1.2.4" example_commit
         (example_world None "1.2.0"))
  = Return ("## [1.2.4] - 2024-07-04" ++ nl ++ nl
            ++ "**Author:** Test Author" ++ nl
            ++ "**Commit:** [abc123d](https://github.com/owner/repo/commit/abc123def456789)"
            ++ nl
            ++ "**Message:** feat: add new feature for testing" ++ nl ++ nl).
Proof. vm_compute. reflexivity. Qed.

(** The script on what the workflow feeds it, and on what it does not
    check. *)
Example script_runs :
  fst (UpgradeVersion.main (example_world None "1.2.0")) = Return "1.2.100"
  /\ fst (UpgradeVersion.main (example_world (Some "patch") "1.2.100")) = Return "1.2.101"
  /\ fst (UpgradeVersion.main (example_world (Some "minor") "1.2.105")) = Return "1.3.0"
  /\ fst (UpgradeVersion.main (example_world (Some "major") "1.2.105")) = Return "2.0.0"
  /\ fst (UpgradeVersion.main (example_world (Some "patch") "1.2")) = Return "1.2.NaN"
  /\ fst (UpgradeVersion.main (example_world (Some "minor") "1.2.3.4")) = Return "1.3.0.4"
  /\ fst (UpgradeVersion.main (example_world (Some "release") "1.2.0")) = Exit 1.
Proof. repeat split; vm_compute; reflexivity. Qed.

(** Numbers as the platform prints them, at and past the exact range. *)
Example number_rendering :
  Number_toString (F 9007199254740993) = "9007199254740992"
  /\ Number_toString (F 1152921504606846976) = "1152921504606847000"
  /\ Number_toString (F 999999999999999999999) = "1e+21"
  /\ Number_toString (F 123456789012345678901234567890) = "1.2345678901234568e+29"
  /\ Number_toString (add1 (F 9007199254740992)) = "9007199254740992".
Proof. repeat split; vm_compute; reflexivity. Qed.

Example iso_timestamps :
  toISOString 1720103425000 = "2024-07-04T14:30:25.000Z"
  /\ toISOString 0 = "1970-01-01T00:00:00.000Z"
  /\ toISOString (-1) = "1969-12-31T23:59:59.999Z"
  /\ toISOString 951782400000 = "2000-02-29T00:00:00.000Z"
  /\ toISOString 253402300800000 = "+010000-01-01T00:00:00.000Z".
Proof. repeat split; vm_compute; reflexivity. Qed.

(* ===================================================================== *)
(** * The properties of the specification *)
(* ===================================================================== *)

(** ** The patch rule *)

(** C1, as stated, fails on the bump script: from 1.2.5 a patch increment
    prints 1.2.100, not 1.2.6. *)
Lemma patch_increment_below_100_counterexample :
  UpgradeVersion.main (example_world (Some "patch") "1.2.5")
  = (Return "1.2.100", with_stdout (example_world (Some "patch") "1.2.5") "1.2.100")
  /\ "1.2.5" = version_string 1 2 5
  /\ "1.2.100" <> version_string 1 2 (5 + 1).
Proof.
  split; [vm_compute; reflexivity|].
  split; [vm_compute; reflexivity|].
  vm_compute. discriminate.
Qed.

(** C1, amended.  For every version (major, minor, patch) with components
    at most 2^53 - 1 and patch different from 0, [calculateNextVersion]
    returns (major, minor, patch + 1); the bump script returns that same
    version when patch is at least 99, and (major, minor, 100) when patch
    is between 1 and 98. *)
Theorem patch_increment_nonzero (major minor patch : N) (w w' : World) :
  (major <= MAX_SAFE_INTEGER)%N ->
  (minor <= MAX_SAFE_INTEGER)%N ->
  (0 < patch <= MAX_SAFE_INTEGER)%N ->
  argv2 w' = Some "patch" ->
  package_version w' = version_string major minor patch ->
  calculateNextVersion (version_string major minor patch) (Some "patch") w
  = (Return (version_string major minor (patch + 1)), w)
  /\ UpgradeVersion.main w'
     = (Return (version_string major minor
                  (if (patch <? 99)%N then 100 else patch + 1)),
        with_stdout w'
          (version_string major minor
             (if (patch <? 99)%N then 100 else patch + 1))).
Proof.
  unfold MAX_SAFE_INTEGER. intros HM Hm Hp Hargv Hpkg.
  assert (Hs : succ53 patch = (patch + 1)%N)
    by (apply succ53_below; unfold two53; lia).
  split.
  - rewrite (calculateNextVersion_components _ _ major minor patch)
      by (try apply components_version_string; unfold two53; lia).
    cbn [vm_step String.eqb Ascii.eqb Bool.eqb version_string_of].
    destruct (N.eqb_spec patch 0) as [E|_]; [lia|].
    rewrite Hs. reflexivity.
  - rewrite (main_canonical Patch major minor patch w' Hargv Hpkg)
      by (cbn; unfold two53; lia).
    cbn [script_step version_string_of]. unfold script_patch. rewrite Hs.
    replace (patch + 1 <? 100)%N with (patch <? 99)%N; [reflexivity|].
    destruct (N.ltb_spec patch 99), (N.ltb_spec (patch + 1) 100); (reflexivity || lia).
Qed.

Lemma patch_increment_nonzero_witness :
  calculateNextVersion (version_string 1 2 5) (Some "patch")
    (example_world None "0.0.0")
  = (Return (version_string 1 2 (5 + 1)), example_world None "0.0.0")
  /\ UpgradeVersion.main (example_world (Some "patch") "1.2.5")
     = (Return (version_string 1 2 (if (5 <? 99)%N then 100 else 5 + 1)),
        with_stdout (example_world (Some "patch") "1.2.5")
          (version_string 1 2 (if (5 <? 99)%N then 100 else 5 + 1))).
Proof.
  apply (patch_increment_nonzero 1 2 5 (example_world None "0.0.0")
           (example_world (Some "patch") "1.2.5")).
  - vm_compute. discriminate.
  - vm_compute. discriminate.
  - split; vm_compute; [reflexivity | discriminate].
  - reflexivity.
  - vm_compute. reflexivity.
Defined.

(** C2, as stated, fails on [calculateNextVersion] for a major number that is
    no double: 9007199254740993 (2^53 + 1) is read as 9007199254740992. *)
Lemma patch_zero_to_hundred_counterexample :
  calculateNextVersion "9007199254740993.0.0" (Some "patch")
    (example_world None "0.0.0")
  = (Return "9007199254740992.0.100", example_world None "0.0.0")
  /\ "9007199254740993.0.0" = version_string 9007199254740993 0 0
  /\ "9007199254740992.0.100" <> version_string 9007199254740993 0 100.
Proof.
  split; [vm_compute; reflexivity|].
  split; [vm_compute; reflexivity|].
  vm_compute. discriminate.
Qed.

(** C2, amended.  For all X and Y the bump script turns X.Y.0 into X.Y.100
    on a patch increment; [calculateNextVersion] does so for all X and Y up
    to 2^53. *)
Theorem patch_zero_to_hundred (X Y : N) (w w' : World) :
  argv2 w' = Some "patch" ->
  package_version w' = version_string X Y 0 ->
  UpgradeVersion.main w'
  = (Return (version_string X Y 100), with_stdout w' (version_string X Y 100))
  /\ ((X <= two53)%N -> (Y <= two53)%N ->
      calculateNextVersion (version_string X Y 0) (Some "patch") w
      = (Return (version_string X Y 100), w)).
Proof.
  intros Hargv Hpkg. split.
  - rewrite (main_canonical Patch X Y 0 w' Hargv Hpkg) by (cbn; unfold two53; lia).
    reflexivity.
  - intros HX HY.
    rewrite (calculateNextVersion_components _ _ X Y 0)
      by (try apply components_version_string; try assumption; unfold two53; lia).
    reflexivity.
Qed.

Lemma patch_zero_to_hundred_witness :
  UpgradeVersion.main (example_world (Some "patch") "1.2.0")
  = (Return (version_string 1 2 100),
     with_stdout (example_world (Some "patch") "1.2.0") (version_string 1 2 100))
  /\ calculateNextVersion (version_string 1 2 0) (Some "patch")
       (example_world None "0.0.0")
     = (Return (version_string 1 2 100), example_world None "0.0.0").
Proof.
  destruct (patch_zero_to_hundred 1 2 (example_world None "0.0.0")
              (example_world (Some "patch") "1.2.0") eq_refl eq_refl) as [H1 H2].
  split; [exact H1|].
  apply H2; vm_compute; discriminate.
Defined.

(** ** The two embodiments *)

(** C3, as stated, fails: on 1.2.5 and a patch increment the script answers
    1.2.100 and [calculateNextVersion] answers 1.2.6. *)
Lemma embodiments_differ_counterexample :
  fst (UpgradeVersion.main (example_world (Some "patch") "1.2.5")) = Return "1.2.100"
  /\ fst (calculateNextVersion "1.2.5" (Some "patch")
            (example_world (Some "patch") "1.2.5")) = Return "1.2.6"
  /\ re_match versionRegex "1.2.5".
Proof.
  split; [vm_compute; reflexivity|].
  split; [vm_compute; reflexivity|].
  apply (re_match_version_string 1 2 5).
Qed.

(** C3, amended.  On a version without leading zeros whose components are at
    most 2^53 - 1, the script and [calculateNextVersion] return the same
    string for major and minor increments, and for patch increments when
    patch is 0 or at least 99; they differ exactly on patch increments with
    patch between 1 and 98. *)
Theorem embodiments_agree_iff (k : IncrementKind) (major minor patch : N)
    (w w' : World) :
  (major <= MAX_SAFE_INTEGER)%N ->
  (minor <= MAX_SAFE_INTEGER)%N ->
  (patch <= MAX_SAFE_INTEGER)%N ->
  argv2 w' = Some (kind_name k) ->
  package_version w' = version_string major minor patch ->
  fst (UpgradeVersion.main w')
  = fst (calculateNextVersion (version_string major minor patch)
           (Some (kind_name k)) w)
  <-> ~ (k = Patch /\ (1 <= patch <= 98)%N).
Proof.
  unfold MAX_SAFE_INTEGER. intros HM Hm Hp Hargv Hpkg.
  rewrite (main_canonical k major minor patch w' Hargv Hpkg)
    by (destruct k; cbn; unfold two53; lia).
  rewrite (calculateNextVersion_components _ _ major minor patch)
    by (try apply components_version_string; unfold two53; lia).
  cbn [fst].
  assert (Hs : succ53 patch = (patch + 1)%N)
    by (apply succ53_below; unfold two53; lia).
  destruct k; cbn [kind_name script_step vm_step String.eqb Ascii.eqb Bool.eqb].
  - split; [intros _ [E _]; discriminate E | reflexivity].
  - split; [intros _ [E _]; discriminate E | reflexivity].
  - unfold script_patch. rewrite Hs. split.
    + intros E [_ Hr]. injection E as E.
      apply (version_string_of_inj (_, _, _) (_, _, _)) in E.
      apply (f_equal snd) in E. cbn [snd] in E.
      destruct (N.ltb_spec (patch + 1) 100), (N.eqb_spec patch 0); lia.
    + intros Hn.
      destruct (N.ltb_spec (patch + 1) 100), (N.eqb_spec patch 0);
        try reflexivity.
      * exfalso. apply Hn. split; [reflexivity | lia].
      * lia.
Qed.

Lemma embodiments_agree_iff_witness :
  fst (UpgradeVersion.main (example_world (Some "minor") "1.2.105"))
  = fst (calculateNextVersion (version_string 1 2 105) (Some (kind_name Minor))
           (example_world None "0.0.0"))
  <-> ~ (Minor = Patch /\ (1 <= 105 <= 98)%N).
Proof.
  apply (embodiments_agree_iff Minor 1 2 105 (example_world None "0.0.0")
           (example_world (Some "minor") "1.2.105")).
  - vm_compute. discriminate.
  - vm_compute. discriminate.
  - vm_compute. discriminate.
  - reflexivity.
  - vm_compute. reflexivity.
Defined.

(** ** Version strings that are rejected *)

(** C4, as stated, fails on the bump script: it has no format check, and
    from v1.2.3 a patch increment prints v1.2.100 and ends normally. *)
Lemma script_accepts_malformed_counterexample :
  ~ re_match versionRegex "v1.2.3"
  /\ UpgradeVersion.main (example_world (Some "patch") "v1.2.3")
     = (Return "v1.2.100", with_stdout (example_world (Some "patch") "v1.2.3") "v1.2.100").
Proof.
  split.
  - apply versionRegex_exec_None. reflexivity.
  - vm_compute. reflexivity.
Qed.

(** C4, amended.  For every string that does not match the version pattern,
    [calculateNextVersion] throws an error whose message is "Invalid version
    format: " followed by that string, whatever the increment, and changes
    nothing; the bump script checks no format and ends normally on every
    version string when the selector is recognized. *)
Theorem invalid_version_rejected (s : string) (increment : option string)
    (k : IncrementKind) (w w' : World) :
  ~ re_match versionRegex s ->
  argv2 w' = Some (kind_name k) ->
  package_version w' = s ->
  calculateNextVersion s increment w = (Throw ("Invalid version format: " ++ s), w)
  /\ exists out, UpgradeVersion.main w' = (Return out, with_stdout w' out).
Proof.
  intros Hs Hargv _. split.
  - apply versionRegex_exec_None in Hs.
    unfold calculateNextVersion. rewrite Hs. reflexivity.
  - rewrite (main_recognized k w' Hargv).
    apply upgradePackageJSONVersion_returns.
Qed.

Lemma invalid_version_rejected_witness :
  calculateNextVersion "1.a.3" None (example_world None "0.0.0")
  = (Throw ("Invalid version format: " ++ "1.a.3"), example_world None "0.0.0")
  /\ exists out,
       UpgradeVersion.main (example_world (Some "minor") "1.a.3")
       = (Return out, with_stdout (example_world (Some "minor") "1.a.3") out).
Proof.
  apply (invalid_version_rejected "1.a.3" None Minor (example_world None "0.0.0")
           (example_world (Some "minor") "1.a.3")).
  - apply versionRegex_exec_None. reflexivity.
  - reflexivity.
  - reflexivity.
Defined.

(** ** The changelog entry *)

(** C5, as stated, fails: at 2024-07-04 14:30:25 UTC the entry's first line
    ends with the date 2024-07-04, not with 2024-07-04 14:30:25 UTC. *)
Lemma changelog_date_counterexample :
  spec_datetime (clock (example_world None "1.2.4")) = "2024-07-04 14:30:25 UTC"
  /\ ChangelogManager.generateChangelogEntry "1.2.4" example_commit
       (example_world None "1.2.4")
     = (Return (spec_changelog_block "1.2.4" example_commit "owner" "repo" "2024-07-04"),
        example_world None "1.2.4")
  /\ spec_changelog_block "1.2.4" example_commit "owner" "repo" "2024-07-04"
     <> spec_changelog_block "1.2.4" example_commit "owner" "repo"
          (spec_datetime (clock (example_world None "1.2.4"))).
Proof.
  split; [vm_compute; reflexivity|].
  split; [vm_compute; reflexivity|].
  vm_compute. discriminate.
Qed.

(** C5, amended.  For every version, commit and clock reading the entry is
    exactly the block of the specification with the date alone (the part of
    the ISO timestamp before the T, as in 2024-07-04) in place of the date
    and time, and with the literal owner/repo in the commit link: the
    heading line, an empty line, the author, the first seven characters of
    the sha as the label of the link to the full sha, the message as it is,
    and an empty line at the end.  The world is left as it was. *)
Theorem changelog_entry_format (version : string)
    (commit : ChangelogManager.commitData) (w : World) :
  ChangelogManager.generateChangelogEntry version commit w
  = (Return (spec_changelog_block version commit "owner" "repo" (iso_date (clock w))),
     w).
Proof.
  unfold ChangelogManager.generateChangelogEntry, bind, Date_now, ret.
  rewrite currentDate_is_iso_date.
  unfold spec_changelog_block.
  repeat (rewrite ?append_assoc; cbn [append]).
  reflexivity.
Qed.

(** ** Selectors that are not recognized *)

(** C6, as stated, fails on [calculateNextVersion]: the selector bogus is
    taken for patch, no error is raised. *)
Lemma unrecognized_selector_counterexample :
  UpgradeVersion.recognized "bogus" = false
  /\ calculateNextVersion "1.2.3" (Some "bogus") (example_world None "0.0.0")
     = (Return "1.2.4", example_world None "0.0.0").
Proof. split; vm_compute; reflexivity. Qed.

(** C6, amended.  For a selector that is none of major, minor and patch:
    [calculateNextVersion] does what it does for patch; the bump script
    prints "Invalid version bump type. Use major, minor, or patch." on
    standard error and exits with status 1 when the selector is a non-empty
    string, and runs the patch increment when it is absent or empty. *)
Theorem unrecognized_selector (a : option string) (v : string) (w w' : World) :
  (forall k, a <> Some (kind_name k)) ->
  argv2 w' = a ->
  calculateNextVersion v a w = calculateNextVersion v (Some "patch") w
  /\ UpgradeVersion.main w' = script_on_unrecognized a w'.
Proof.
  intros Hk Hargv. split.
  - destruct a as [t|]; [|reflexivity].
    unfold calculateNextVersion.
    destruct (versionRegex_exec v) as [[[x y] z]|]; [|reflexivity].
    destruct (String.eqb_spec t "major") as [->|_]; [destruct (Hk Major); reflexivity|].
    destruct (String.eqb_spec t "minor") as [->|_]; [destruct (Hk Minor); reflexivity|].
    reflexivity.
  - unfold UpgradeVersion.main, UpgradeVersion.versionBumpType, bind at 1 2,
      process_argv2, ret at 1.
    rewrite Hargv.
    destruct a as [t|]; [|reflexivity].
    destruct t as [|c r]; [reflexivity|].
    cbv iota. unfold UpgradeVersion.recognized.
    destruct (String.eqb_spec (String c r) "major") as [E|_];
      [destruct (Hk Major); rewrite E; reflexivity|].
    destruct (String.eqb_spec (String c r) "minor") as [E|_];
      [destruct (Hk Minor); rewrite E; reflexivity|].
    destruct (String.eqb_spec (String c r) "patch") as [E|_];
      [destruct (Hk Patch); rewrite E; reflexivity|].
    reflexivity.
Qed.

Lemma unrecognized_selector_witness :
  calculateNextVersion "1.2.3" (Some "bogus") (example_world None "0.0.0")
  = calculateNextVersion "1.2.3" (Some "patch") (example_world None "0.0.0")
  /\ UpgradeVersion.main (example_world (Some "bogus") "1.2.3")
     = script_on_unrecognized (Some "bogus") (example_world (Some "bogus") "1.2.3").
Proof.
  apply (unrecognized_selector (Some "bogus") "1.2.3" (example_world None "0.0.0")
           (example_world (Some "bogus") "1.2.3")).
  - intros k. destruct k; discriminate.
  - reflexivity.
Defined.

(** ** Purity *)

(** C7, as stated, fails for the formatter: [generateChangelogEntry] takes
    the version and the commit and no timestamp, and reads the clock
    itself.  Two calls with the same version and commit, one on 1970-01-01
    and one a day later, return different entries. *)
Lemma entry_depends_on_clock_counterexample :
  ChangelogManager.generateChangelogEntry "1.2.4" example_commit
    (mkWorld 0 None "1.2.4" [] [])
  = (Return (spec_changelog_block "1.2.4" example_commit "owner" "repo" "1970-01-01"),
     mkWorld 0 None "1.2.4" [] [])
  /\ ChangelogManager.generateChangelogEntry "1.2.4" example_commit
       (mkWorld 86400000 None "1.2.4" [] [])
     = (Return (spec_changelog_block "1.2.4" example_commit "owner" "repo" "1970-01-02"),
        mkWorld 86400000 None "1.2.4" [] [])
  /\ fst (ChangelogManager.generateChangelogEntry "1.2.4" example_commit
            (mkWorld 0 None "1.2.4" [] []))
     <> fst (ChangelogManager.generateChangelogEntry "1.2.4" example_commit
               (mkWorld 86400000 None "1.2.4" [] [])).
Proof.
  split; [vm_compute; reflexivity|].
  split; [vm_compute; reflexivity|].
  vm_compute. discriminate.
Qed.

(** C7, amended.  Two calls of [calculateNextVersion] with the same version
    and increment return the same completion in any two worlds, and two
    calls of [generateChangelogEntry] with the same version and commit
    return the same completion in any two worlds whose clocks read the same
    time; neither call changes the world it runs in. *)
Theorem pure_and_deterministic (v : string) (increment : option string)
    (version : string) (commit : ChangelogManager.commitData) (w1 w2 : World) :
  fst (calculateNextVersion v increment w1) = fst (calculateNextVersion v increment w2)
  /\ snd (calculateNextVersion v increment w1) = w1
  /\ snd (ChangelogManager.generateChangelogEntry version commit w1) = w1
  /\ (clock w1 = clock w2 ->
      fst (ChangelogManager.generateChangelogEntry version commit w1)
      = fst (ChangelogManager.generateChangelogEntry version commit w2)).
Proof.
  split; [|split; [|split]].
  - unfold calculateNextVersion.
    destruct (versionRegex_exec v) as [[[x y] z]|]; [|reflexivity].
    destruct (_ =? "major"); [reflexivity|].
    destruct (_ =? "minor"); reflexivity.
  - unfold calculateNextVersion.
    destruct (versionRegex_exec v) as [[[x y] z]|]; [|reflexivity].
    destruct (_ =? "major"); [reflexivity|].
    destruct (_ =? "minor"); reflexivity.
  - reflexivity.
  - intros Hclock.
    unfold ChangelogManager.generateChangelogEntry, bind, Date_now, ret.
    cbn [fst]. rewrite Hclock. reflexivity.
Qed.

Lemma pure_and_deterministic_witness :
  fst (calculateNextVersion "1.2.0" None (example_world None "1.2.0"))
  = fst (calculateNextVersion "1.2.0" None (example_world (Some "minor") "9.9.9"))
  /\ snd (calculateNextVersion "1.2.0" None (example_world None "1.2.0"))
     = example_world None "1.2.0"
  /\ snd (ChangelogManager.generateChangelogEntry "1.2.100" example_commit
            (example_world None "1.2.0"))
     = example_world None "1.2.0"
  /\ fst (ChangelogManager.generateChangelogEntry "1.2.100" example_commit
            (example_world None "1.2.0"))
     = fst (ChangelogManager.generateChangelogEntry "1.2.100" example_commit
              (example_world (Some "minor") "9.9.9")).
Proof.
  destruct (pure_and_deterministic "1.2.0" None "1.2.100" example_commit
              (example_world None "1.2.0") (example_world (Some "minor") "9.9.9"))
    as (H1 & H2 & H3 & H4).
  split; [exact H1|]. split; [exact H2|]. split; [exact H3|].
  apply H4. reflexivity.
Defined.

(** ** Incrementing twice *)

(** C8, as stated, fails where the increment is absorbed by rounding: from
    9007199254740991.0.0 one major increment and two major increments both
    end in 9007199254740992.0.0. *)
Lemma increment_absorbed_counterexample :
  re_match versionRegex "9007199254740991.0.0"
  /\ calculateNextVersion "9007199254740991.0.0" (Some "major")
       (example_world None "0.0.0")
     = (Return "9007199254740992.0.0", example_world None "0.0.0")
  /\ calculateNextVersion "9007199254740992.0.0" (Some "major")
       (example_world None "0.0.0")
     = (Return "9007199254740992.0.0", example_world None "0.0.0").
Proof.
  split; [apply (re_match_version_string 9007199254740991 0 0)|].
  split; vm_compute; reflexivity.
Qed.

(** C8, amended.  For every version without leading zeros whose components
    are below 2^53 - 1 and every recognized increment kind, incrementing
    twice gives another string than incrementing once, with
    [calculateNextVersion] and with the bump script (run a second time on
    the version it printed). *)
Theorem twice_differs_from_once (k : IncrementKind) (major minor patch : N)
    (w w' : World) :
  (major < MAX_SAFE_INTEGER)%N ->
  (minor < MAX_SAFE_INTEGER)%N ->
  (patch < MAX_SAFE_INTEGER)%N ->
  argv2 w' = Some (kind_name k) ->
  package_version w' = version_string major minor patch ->
  (exists once twice,
      calculateNextVersion (version_string major minor patch)
        (Some (kind_name k)) w = (Return once, w)
      /\ calculateNextVersion once (Some (kind_name k)) w = (Return twice, w)
      /\ twice <> once)
  /\ (exists once twice,
        fst (UpgradeVersion.main w') = Return once
        /\ fst (UpgradeVersion.main (with_version w' once)) = Return twice
        /\ twice <> once).
Proof.
  unfold MAX_SAFE_INTEGER. intros HM Hm Hp Hargv Hpkg. split.
  - destruct (spec_nextVersion k (major, minor, patch)) as [[M1 m1] p1] eqn:E1.
    assert (B1 : (M1 < two53 /\ m1 < two53 /\ p1 < two53)%N).
    { unfold two53. destruct k; cbn in E1; injection E1 as <- <- <-;
        try destruct (N.eqb_spec patch 0); lia. }
    destruct B1 as (BM & Bm & Bp).
    exists (version_string_of (M1, m1, p1)),
           (version_string_of (spec_nextVersion k (M1, m1, p1))).
    split; [|split].
    + rewrite (calculateNextVersion_components _ _ major minor patch)
        by (try apply components_version_string; unfold two53; lia).
      rewrite vm_step_kind by (unfold two53; lia).
      rewrite E1. reflexivity.
    + change (version_string_of (M1, m1, p1)) with (version_string M1 m1 p1).
      rewrite (calculateNextVersion_components _ _ M1 m1 p1)
        by (try apply components_version_string; lia).
      rewrite vm_step_kind by assumption. reflexivity.
    + intros E. apply version_string_of_inj in E.
      exact (spec_nextVersion_moves k _ E).
  - destruct (script_step k (major, minor, patch)) as [[M1 m1] p1] eqn:E1.
    assert (B1 : (M1 < two53 /\ m1 < two53 /\ p1 < two53)%N).
    { unfold two53. destruct k; cbn in E1; unfold script_patch in E1;
        rewrite ?succ53_below in E1 by (unfold two53; lia);
        injection E1 as <- <- <-;
        try destruct (N.ltb_spec (patch + 1) 100); lia. }
    destruct B1 as (BM & Bm & Bp).
    exists (version_string_of (M1, m1, p1)),
           (version_string_of (script_step k (M1, m1, p1))).
    split; [|split].
    + rewrite (main_canonical k major minor patch w' Hargv Hpkg)
        by (destruct k; cbn; unfold two53; lia).
      rewrite E1. reflexivity.
    + rewrite (main_canonical k M1 m1 p1 (with_version w' _))
        by (try exact Hargv; try reflexivity; destruct k; cbn; lia).
      reflexivity.
    + intros E. apply version_string_of_inj in E.
      exact (script_step_moves k M1 m1 p1 BM Bm Bp E).
Qed.

Lemma twice_differs_from_once_witness :
  (exists once twice,
      calculateNextVersion (version_string 1 2 0) (Some (kind_name Patch))
        (example_world None "0.0.0") = (Return once, example_world None "0.0.0")
      /\ calculateNextVersion once (Some (kind_name Patch))
           (example_world None "0.0.0") = (Return twice, example_world None "0.0.0")
      /\ twice <> once)
  /\ (exists once twice,
        fst (UpgradeVersion.main (example_world (Some "patch") "1.2.0")) = Return once
        /\ fst (UpgradeVersion.main
                  (with_version (example_world (Some "patch") "1.2.0") once))
           = Return twice
        /\ twice <> once).
Proof.
  apply (twice_differs_from_once Patch 1 2 0 (example_world None "0.0.0")
           (example_world (Some "patch") "1.2.0")).
  - vm_compute. reflexivity.
  - vm_compute. reflexivity.
  - vm_compute. reflexivity.
  - reflexivity.
  - vm_compute. reflexivity.
Defined.

(** ** Closure of the version format *)

(** C9, as stated, fails for a component of 22 digits: 10^21 is printed as
    1e+21, so the result of incrementing 1000000000000000000000.0.0 does
    not match the pattern and the next increment throws. *)
Lemma format_not_closed_counterexample :
  re_match versionRegex "1000000000000000000000.0.0"
  /\ calculateNextVersion "1000000000000000000000.0.0" (Some "patch")
       (example_world None "0.0.0")
     = (Return "1e+21.0.100", example_world None "0.0.0")
  /\ ~ re_match versionRegex "1e+21.0.100"
  /\ calculateNextVersion "1e+21.0.100" (Some "patch") (example_world None "0.0.0")
     = (Throw "Invalid version format: 1e+21.0.100", example_world None "0.0.0").
Proof.
  split; [apply (re_match_version_string 1000000000000000000000 0 0)|].
  split; [vm_compute; reflexivity|].
  split; [apply versionRegex_exec_None; reflexivity|].
  vm_compute. reflexivity.
Qed.

Lemma calculateNextVersion_within_limit (s : string) (i : option string) (w : World) :
  within_limit s = true ->
  exists s',
    calculateNextVersion s i w = (Return s', w)
    /\ re_match versionRegex s' /\ within_limit s' = true.
Proof.
  intros H. apply within_limit_components in H.
  destruct H as (M & m & p & Hc & HM & Hm & Hp).
  rewrite (calculateNextVersion_components s i M m p w Hc HM Hm Hp).
  pose proof (vm_step_within
                (match i with Some i0 => i0 | None => "patch" end) M m p HM Hm Hp) as B.
  destruct (vm_step _ (M, m, p)) as [[M' m'] p'].
  destruct B as (BM & Bm & Bp).
  eexists. split; [reflexivity|]. cbn [version_string_of]. split.
  - apply re_match_version_string.
  - apply within_limit_version_string; assumption.
Qed.

(** C9, amended.  For every string that matches the version pattern with
    components of at most 2^53 and every sequence of increments of any
    kind, each increment returns a string that again matches the pattern
    with components of at most 2^53: the chain never throws. *)
Theorem format_closed_within_limit (s : string) (increments : list (option string))
    (w : World) :
  re_match versionRegex s ->
  within_limit s = true ->
  exists s',
    chain s increments w = (Return s', w)
    /\ re_match versionRegex s' /\ within_limit s' = true.
Proof.
  revert s. induction increments as [|i rest IH]; intros s Hre Hlim.
  - exists s. repeat split; assumption.
  - destruct (calculateNextVersion_within_limit s i w Hlim) as (s1 & E1 & Hre1 & Hlim1).
    destruct (IH s1 Hre1 Hlim1) as (s' & E' & Hre' & Hlim').
    exists s'. split; [|split; assumption].
    cbn [chain]. rewrite (bind_returns _ _ _ _ _ E1). exact E'.
Qed.

Lemma format_closed_within_limit_witness :
  exists s',
    chain "1.2.0" [None; Some "patch"; Some "minor"; Some "major"; Some "patch"]
      (example_world None "0.0.0")
    = (Return s', example_world None "0.0.0")
    /\ re_match versionRegex s' /\ within_limit s' = true.
Proof.
  apply (format_closed_within_limit "1.2.0").
  - apply (re_match_version_string 1 2 0).
  - vm_compute. reflexivity.
Defined.

(** ** Leading zeros *)



(** The example of C10: a patch increment of 01.02.000 yields 1.2.100. *)
Example leading_zeros_example :
  calculateNextVersion "01.02.000" (Some "patch") (example_world None "0.0.0")
  = (Return "1.2.100", example_world None "0.0.0").
Proof. vm_compute. reflexivity. Qed.

(* ===================================================================== *)
(** * Facts about lines, searches and slices *)
(* ===================================================================== *)

Section SplitJoin.
Variable sep : ascii.

Lemma split_nonempty (s : string) : split sep s <> [].
Proof.
  destruct s as [|c r]; simpl; [discriminate|].
  destruct (Ascii.eqb c sep); [discriminate|].
  destruct (split sep r); discriminate.
Qed.

(** Joining the parts with the separator gives the string back. *)
Lemma concat_split (s : string) :
  String.concat (String sep "") (split sep s) = s.
Proof.
  induction s as [|c r IH]; [reflexivity|].
  cbn [split].
  destruct (Ascii.eqb_spec c sep) as [->|Hc].
  - pose proof (split_nonempty r) as Hne.
    destruct (split sep r) as [|x xs]; [congruence|].
    cbn [String.concat] in *. rewrite IH. reflexivity.
  - pose proof (split_nonempty r) as Hne.
    destruct (split sep r) as [|x xs]; [congruence|].
    rewrite <- IH. destruct xs; reflexivity.
Qed.

(** The parts of [a], the separator and [b] are the parts of [a] followed by
    the parts of [b]. *)
Lemma split_app_sep (a b : string) :
  split sep (a ++ String sep b) = (split sep a ++ split sep b)%list.
Proof.
  induction a as [|c r IH]; cbn [append split].
  - rewrite Ascii.eqb_refl. reflexivity.
  - rewrite IH. destruct (Ascii.eqb c sep); [reflexivity|].
    pose proof (split_nonempty r) as Hne.
    destruct (split sep r) as [|x xs]; [congruence | reflexivity].
Qed.
End SplitJoin.

Lemma concat_cons (sep x : string) (l : list string) :
  l <> [] -> String.concat sep (x :: l) = x ++ sep ++ String.concat sep l.
Proof. destruct l; [congruence | reflexivity]. Qed.

(** ** White space *)

Lemma trim_start_empty (s : string) :
  whitespace_only s = true -> trim_start s = "".
Proof.
  induction s as [|c r IH]; cbn [whitespace_only trim_start]; [reflexivity|].
  intros H. apply andb_true_iff in H. destruct H as [Hc Hr].
  rewrite Hc. apply IH, Hr.
Qed.

Lemma trim_start_head (s : string) :
  whitespace_only s = false ->
  exists c r, trim_start s = String c r /\ is_white_space c = false.
Proof.
  induction s as [|c r IH]; cbn [whitespace_only trim_start]; [discriminate|].
  destruct (is_white_space c) eqn:Hc.
  - cbn [andb]. exact IH.
  - intros _. exists c, r. split; [reflexivity | exact Hc].
Qed.

Lemma trim_end_head (c : ascii) (r : string) :
  is_white_space c = false -> trim_end (String c r) <> "".
Proof.
  intros Hc. cbn [trim_end]. destruct (trim_end r); [rewrite Hc|]; discriminate.
Qed.

(** [line.trim() === ''] holds exactly of the lines of white space. *)
Lemma trim_is_empty (s : string) : (trim s =? "") = whitespace_only s.
Proof.
  unfold trim. destruct (whitespace_only s) eqn:H.
  - rewrite trim_start_empty by exact H. reflexivity.
  - destruct (trim_start_head s H) as (c & r & -> & Hc).
    apply String.eqb_neq, trim_end_head, Hc.
Qed.

(** ** [indexOf] and [findIndex] *)

Lemma indexOf_from_found (a : list string) : forall i x n,
  nth_error a n = Some x ->
  (i <= indexOf_from i a x <= i + Z.of_nat n)%Z.
Proof.
  induction a as [|y t IH]; intros i x n H.
  - destruct n; discriminate.
  - cbn [indexOf_from]. destruct (String.eqb_spec y x) as [->|Hy]; [lia|].
    destruct n as [|n]; [cbn in H; congruence|].
    specialize (IH (i + 1)%Z x n H). lia.
Qed.

Lemma indexOf_from_spec (a : list string) : forall i x,
  indexOf_from i a x <> (-1)%Z -> (0 <= i)%Z ->
  exists n, indexOf_from i a x = (i + Z.of_nat n)%Z
            /\ nth_error a n = Some x /\ ~ In x (firstn n a).
Proof.
  induction a as [|y t IH]; intros i x H Hi; cbn [indexOf_from] in *; [congruence|].
  destruct (String.eqb_spec y x) as [->|Hy].
  - exists 0%nat. cbn. split; [lia | auto].
  - destruct (IH (i + 1)%Z x H ltac:(lia)) as (n & E & Hn & Hfirst).
    exists (S n). cbn. split; [lia|]. split; [exact Hn|].
    intros [E'|E']; [congruence | exact (Hfirst E')].
Qed.

Lemma findIndex_from_none (p : string -> bool) (a : list string) : forall i,
  (0 <= i)%Z -> findIndex_from i p a = (-1)%Z ->
  forall x, In x a -> p x = false.
Proof.
  induction a as [|y t IH]; intros i Hi H x Hx; [destruct Hx|].
  cbn [findIndex_from] in H. destruct (p y) eqn:Hy; [lia|].
  destruct Hx as [<-|Hx]; [exact Hy|].
  apply (IH (i + 1)%Z); [lia | exact H | exact Hx].
Qed.

Lemma findIndex_from_spec (p : string -> bool) (a : list string) : forall i,
  (0 <= i)%Z -> findIndex_from i p a <> (-1)%Z ->
  exists n x, findIndex_from i p a = (i + Z.of_nat n)%Z
              /\ nth_error a n = Some x /\ p x = true
              /\ forall m y, (m < n)%nat -> nth_error a m = Some y -> p y = false.
Proof.
  induction a as [|y t IH]; intros i Hi H; cbn [findIndex_from] in *; [congruence|].
  destruct (p y) eqn:Hy.
  - exists 0%nat, y. cbn. split; [lia|]. split; [reflexivity|]. split; [exact Hy|].
    intros m z Hm. lia.
  - destruct (IH (i + 1)%Z ltac:(lia) H) as (n & x & E & Hn & Hx & Hmin).
    exists (S n), x. cbn. split; [lia|]. split; [exact Hn|]. split; [exact Hx|].
    intros m z Hm Hz. destruct m as [|m]; cbn in Hz.
    + congruence.
    + apply (Hmin m z); [lia | exact Hz].
Qed.

Lemma In_firstn_nth_error {A} (l : list A) (x : A) : forall n k,
  nth_error l k = Some x -> (k < n)%nat -> In x (firstn n l).
Proof.
  induction l as [|y t IH]; intros n k H Hk.
  - destruct k; discriminate.
  - destruct n as [|n]; [lia|]. destruct k as [|k]; cbn in *.
    + left. congruence.
    + right. apply (IH n k H). lia.
Qed.

(** ** [slice] *)

Lemma slice_prefix (a : list string) (k : nat) :
  (k <= List.length a)%nat -> slice a 0 (Z.of_nat k) = firstn k a.
Proof.
  intros H. unfold slice, relative_index.
  destruct (Z.ltb_spec 0 0); [lia|].
  destruct (Z.ltb_spec (Z.of_nat k) 0); [lia|].
  rewrite !Z.min_l by lia.
  cbn [Z.to_nat skipn]. rewrite Z.sub_0_r, Nat2Z.id. reflexivity.
Qed.

Lemma slice_suffix (a : list string) (k : nat) :
  (k <= List.length a)%nat -> slice_from a (Z.of_nat k) = skipn k a.
Proof.
  intros H. unfold slice_from, slice, relative_index.
  destruct (Z.ltb_spec (Z.of_nat k) 0); [lia|].
  destruct (Z.ltb_spec (Z.of_nat (List.length a)) 0); [lia|].
  rewrite !Z.min_l by lia.
  rewrite Nat2Z.id. apply firstn_all2.
  rewrite length_skipn. lia.
Qed.

(* ===================================================================== *)
(** * Facts about [updateChangelog] *)
(* ===================================================================== *)

Import ChangelogManager.

(** Where the entry goes: at the very top, or behind a line of white space
    that stands at index 3 or later and equals no line before it. *)
Lemma headerEndIndex_cases (lines : list string) :
  (headerEndIndex lines = (-1)%Z
   /\ forall line, In line lines -> whitespace_only line = true ->
                   In line (firstn 3 lines))
  \/ (exists n line,
        headerEndIndex lines = Z.of_nat n /\ (3 <= n)%nat
        /\ nth_error lines n = Some line /\ whitespace_only line = true
        /\ ~ In line (firstn n lines)).
Proof.
  unfold headerEndIndex.
  set (p := fun line => (trim line =? "") && (2 <? indexOf lines line)%Z).
  destruct (Z.eq_dec (findIndex p lines) (-1)) as [E|E].
  - left. rewrite E. split; [reflexivity|].
    intros line Hin Hblank.
    pose proof (findIndex_from_none p lines 0 ltac:(lia) E line Hin) as Hp.
    unfold p in Hp. rewrite trim_is_empty, Hblank in Hp. cbn [andb] in Hp.
    apply Z.ltb_ge in Hp.
    destruct (In_nth_error _ _ Hin) as [k Hk].
    pose proof (indexOf_from_found lines 0 line k Hk) as Hb. fold (indexOf lines line) in Hb.
    destruct (indexOf_from_spec lines 0 line ltac:(fold (indexOf lines line); lia) ltac:(lia))
      as (n & En & Hn & _).
    fold (indexOf lines line) in En.
    apply (In_firstn_nth_error lines line 3 n Hn). lia.
  - right.
    destruct (findIndex_from_spec p lines 0 ltac:(lia) E) as (n & x & En & Hn & Hx & Hmin).
    fold (findIndex p lines) in En. rewrite En. cbn [Z.add].
    unfold p in Hx. apply andb_true_iff in Hx. destruct Hx as [Hblank Hfirst].
    rewrite trim_is_empty in Hblank. apply Z.ltb_lt in Hfirst.
    pose proof (indexOf_from_found lines 0 x n Hn) as Hb. fold (indexOf lines x) in Hb.
    destruct (indexOf_from_spec lines 0 x ltac:(fold (indexOf lines x); lia) ltac:(lia))
      as (j & Ej & Hj & Hnot).
    fold (indexOf lines x) in Ej.
    assert (Hjn : j = n).
    { destruct (Nat.lt_ge_cases j n) as [Hlt|Hge]; [|lia].
      pose proof (Hmin j x Hlt Hj) as Hpx. unfold p in Hpx.
      rewrite trim_is_empty, Hblank in Hpx. cbn [andb] in Hpx.
      apply Z.ltb_ge in Hpx. lia. }
    subst j.
    exists n, x. unfold or_else.
    destruct (Z.eqb_spec (Z.of_nat n) 0); [lia|].
    repeat split; try assumption; lia.
Qed.

(** The two slices around the entry, as a prefix and the rest. *)
Lemma slices_around (lines : list string) (k : nat) :
  (k <= List.length lines)%nat ->
  slice lines 0 (Z.of_nat k) = firstn k lines
  /\ slice_from lines (Z.of_nat k) = skipn k lines.
Proof. intros H. split; [apply slice_prefix | apply slice_suffix]; exact H. Qed.

(** The text [updateChangelog] writes over the existing or initial text
    [content]. *)
Lemma updateChangelog_text (newEntry changelogPath : string) (d : Disk) :
  (exists content, d changelogPath = Some (File content))
  \/ d changelogPath = None ->
  let content :=
    match d changelogPath with Some (File c) => c | _ => changelogHeader end in
  exists k,
    (k <= List.length (lines_of content))%nat
    /\ Z.of_nat k = (headerEndIndex (lines_of content) + 1)%Z
    /\ updateChangelog newEntry changelogPath d
       = (Return tt,
          disk_write d changelogPath
            (String.concat nl
               (firstn k (lines_of content) ++ newEntry :: skipn k (lines_of content)))).
Proof.
  intros Hd. cbv zeta.
  set (content := match d changelogPath with Some (File c) => c | _ => changelogHeader end).
  assert (Hk : exists k, (k <= List.length (lines_of content))%nat
                         /\ Z.of_nat k = (headerEndIndex (lines_of content) + 1)%Z).
  { destruct (headerEndIndex_cases (lines_of content))
      as [[E _] | (n & line & E & _ & Hn & _)].
    - exists 0%nat. rewrite E. split; [lia | reflexivity].
    - exists (S n). rewrite E. split; [|lia].
      apply Nat.le_succ_l. apply nth_error_Some. congruence. }
  destruct Hk as (k & Hlen & Ek). exists k. split; [exact Hlen|]. split; [exact Ek|].
  destruct (slices_around (lines_of content) k Hlen) as [Hpre Hsuf].
  rewrite Ek in Hpre, Hsuf.
  unfold updateChangelog, fs_try_catch, fs_bind, existsSync, readFileSync,
    writeFileSync, fs_ret.
  cbv zeta.
  unfold content in *. clear content. unfold lines_of in *.
  destruct Hd as [[c Hc] | Hnone].
  - rewrite Hc in Hpre, Hsuf. cbv beta iota in Hpre, Hsuf.
    repeat (rewrite Hc; cbv beta iota).
    rewrite Hpre, Hsuf. reflexivity.
  - rewrite Hnone in Hpre, Hsuf. cbv beta iota in Hpre, Hsuf.
    repeat (rewrite Hnone; cbv beta iota).
    rewrite Hpre, Hsuf. reflexivity.
Qed.

Lemma firstn_In_mono {A} (l : list A) (x : A) (n m : nat) :
  (n <= m)%nat -> In x (firstn n l) -> In x (firstn m l).
Proof.
  revert n m. induction l as [|y t IH]; intros n m Hnm H.
  - rewrite firstn_nil in H. destruct H.
  - destruct n as [|n]; [destruct H|]. destruct m as [|m]; [lia|].
    cbn in *. destruct H as [H|H]; [left; exact H | right].
    apply (IH n m); [lia | exact H].
Qed.

Lemma firstn_In_app {A} (l1 l2 : list A) (x : A) (n : nat) :
  In x (firstn n l1) -> In x (firstn n (l1 ++ l2)).
Proof. intros H. rewrite firstn_app. apply in_or_app. left. exact H. Qed.

(** In a text whose blank lines are all empty and that has an empty line
    among its first three, the search finds nothing. *)
Lemma headerEndIndex_top (content : string) :
  blank_lines_empty content -> empty_line_on_top content ->
  headerEndIndex (lines_of content) = (-1)%Z.
Proof.
  intros Hblank Htop.
  destruct (headerEndIndex_cases (lines_of content))
    as [[E _] | (n & line & _ & Hn3 & Hn & Hw & Hnot)]; [exact E|].
  exfalso. apply Hnot.
  rewrite (Hblank line (nth_error_In _ _ Hn) Hw).
  apply (firstn_In_mono _ _ 3 n Hn3 Htop).
Qed.

Lemma lines_of_app (a b : string) :
  lines_of (a ++ nl ++ b) = (lines_of a ++ lines_of b)%list.
Proof. unfold lines_of. apply (split_app_sep lf a b). Qed.

Lemma concat_lines_of (content : string) :
  String.concat nl (lines_of content) = content.
Proof. apply (concat_split lf). Qed.

Lemma lines_of_nonempty (content : string) : lines_of content <> [].
Proof. apply split_nonempty. Qed.

(** On such a text the entry goes on top. *)
Lemma updateChangelog_top (newEntry changelogPath content : string) (d : Disk) :
  d changelogPath = Some (File content)
  \/ (d changelogPath = None /\ content = changelogHeader) ->
  blank_lines_empty content -> empty_line_on_top content ->
  updateChangelog newEntry changelogPath d
  = (Return tt, disk_write d changelogPath (newEntry ++ nl ++ content)).
Proof.
  intros Hd Hblank Htop.
  assert (Hd' : (exists c, d changelogPath = Some (File c)) \/ d changelogPath = None)
    by (destruct Hd as [H|[H _]]; eauto).
  destruct (updateChangelog_text newEntry changelogPath d Hd') as (k & _ & Ek & E).
  assert (Hc : match d changelogPath with Some (File c) => c | _ => changelogHeader end
               = content)
    by (destruct Hd as [H|[H ->]]; rewrite H; reflexivity).
  rewrite Hc in Ek, E.
  rewrite (headerEndIndex_top content Hblank Htop) in Ek.
  assert (k = 0)%nat by lia. subst k.
  rewrite E. cbn [firstn skipn List.app].
  rewrite concat_cons by apply lines_of_nonempty.
  rewrite concat_lines_of. reflexivity.
Qed.

Lemma blank_lines_empty_app (a b : string) :
  blank_lines_empty a -> blank_lines_empty b -> blank_lines_empty (a ++ nl ++ b).
Proof.
  unfold blank_lines_empty. intros Ha Hb line Hin Hw.
  rewrite lines_of_app in Hin. apply in_app_or in Hin.
  destruct Hin as [Hin|Hin]; [apply Ha | apply Hb]; assumption.
Qed.

Lemma empty_line_on_top_app (a b : string) :
  empty_line_on_top a -> empty_line_on_top (a ++ nl ++ b).
Proof.
  unfold empty_line_on_top. intros Ha.
  rewrite lines_of_app. apply firstn_In_app, Ha.
Qed.

Lemma changelogHeader_tidy :
  blank_lines_empty changelogHeader /\ empty_line_on_top changelogHeader.
Proof.
  split.
  - intros line Hin Hw. vm_compute in Hin.
    repeat (destruct Hin as [<-|Hin]; [try reflexivity; discriminate Hw|]).
    destruct Hin.
  - vm_compute. auto.
Qed.

Lemma disk_write_same (d : Disk) (path content : string) :
  disk_write d path content path = Some (File content).
Proof. unfold disk_write. rewrite String.eqb_refl. reflexivity. Qed.

Lemma disk_write_other (d : Disk) (path content q : string) :
  q <> path -> disk_write d path content q = d q.
Proof.
  intros H. unfold disk_write. apply String.eqb_neq in H. rewrite H. reflexivity.
Qed.

(** Entries with empty blank lines and an empty line on top pile up, the
    last one topmost. *)
Lemma updateChangelog_all_file (entries : list string) (changelogPath : string) :
  forall (d : Disk) (content : string),
    d changelogPath = Some (File content) ->
    blank_lines_empty content -> empty_line_on_top content ->
    Forall (fun e => blank_lines_empty e /\ empty_line_on_top e) entries ->
    exists d',
      updateChangelog_all entries changelogPath d = (Return tt, d')
      /\ d' changelogPath = Some (File (stack entries content))
      /\ forall q, q <> changelogPath -> d' q = d q.
Proof.
  induction entries as [|e rest IH]; intros d content Hd Hblank Htop Hall.
  - exists d. repeat split; assumption.
  - inversion Hall as [|e' rest' [He1 He2] Hrest]; subst.
    cbn [updateChangelog_all stack]. unfold fs_bind.
    rewrite (updateChangelog_top e changelogPath content d (or_introl Hd) Hblank Htop).
    destruct (IH (disk_write d changelogPath (e ++ nl ++ content)) (e ++ nl ++ content))
      as (d' & E & Hfile & Hframe).
    + apply disk_write_same.
    + apply blank_lines_empty_app; assumption.
    + apply empty_line_on_top_app, He2.
    + exact Hrest.
    + exists d'. split; [exact E|]. split; [exact Hfile|].
      intros q Hq. rewrite (Hframe q Hq). apply disk_write_other, Hq.
Qed.

(** ** The lines of a generated entry *)

Lemma no_char_substring (c : ascii) (s : string) : forall n m,
  no_char c s = true -> no_char c (String.substring n m s) = true.
Proof.
  induction s as [|x r IH]; intros n m H.
  - destruct n, m; reflexivity.
  - cbn [no_char] in H. apply andb_true_iff in H. destruct H as [Hx Hr].
    destruct n as [|n].
    + destruct m as [|m]; [reflexivity|].
      cbn [String.substring no_char]. rewrite Hx. apply (IH 0%nat m Hr).
    + cbn [String.substring]. apply IH, Hr.
Qed.

Lemma no_lf_iso_date (t : Z) : no_char lf (iso_date t) = true.
Proof.
  unfold iso_date, iso_year.
  repeat match goal with
         | |- context [if ?b then _ else _] => destruct b
         end;
    rewrite ?no_char_app, ?no_char_pad by reflexivity; reflexivity.
Qed.

(** With single-line fields the entry has seven lines: the heading, an
    empty line, the author, the commit, the message and two empty lines. *)
Lemma generated_entry_lines (r : entry_request) (e : string) :
  single_line r -> generates r e ->
  exists heading author_line commit_line message_line,
    lines_of e = [heading; ""; author_line; commit_line; message_line; ""; ""]
    /\ whitespace_only heading = false
    /\ whitespace_only author_line = false
    /\ whitespace_only commit_line = false
    /\ whitespace_only message_line = false.
Proof.
  destruct r as [[version commit] w].
  intros (Hv & Ha & Hs & Hm) Hgen.
  unfold generates, generateChangelogEntry, bind, Date_now, ret in Hgen.
  rewrite currentDate_is_iso_date in Hgen. injection Hgen as <-.
  set (heading := "## [" ++ version ++ "] - " ++ iso_date (clock w)).
  set (author_line := "**Author:** " ++ author commit).
  set (commit_line := "**Commit:** [" ++ substring_to 7 (sha commit)
                        ++ "](https://github.com/owner/repo/commit/"
                        ++ sha commit ++ ")").
  set (message_line := "**Message:** " ++ message commit).
  exists heading, author_line, commit_line, message_line.
  assert (Hh : no_char lf heading = true).
  { unfold heading. rewrite !no_char_app, Hv, no_lf_iso_date. reflexivity. }
  assert (Hal : no_char lf author_line = true).
  { unfold author_line. rewrite !no_char_app, Ha. reflexivity. }
  assert (Hcl : no_char lf commit_line = true).
  { unfold commit_line, substring_to.
    rewrite !no_char_app, no_char_substring, Hs by exact Hs. reflexivity. }
  assert (Hml : no_char lf message_line = true).
  { unfold message_line. rewrite !no_char_app, Hm. reflexivity. }
  split; [|repeat split; reflexivity].
  transitivity
    (lines_of (heading ++ nl ++ "" ++ nl ++ author_line ++ nl ++ commit_line ++ nl
                 ++ message_line ++ nl ++ "" ++ nl ++ "")).
  - f_equal. unfold heading, author_line, commit_line, message_line.
    repeat (rewrite ?append_assoc; cbn [append]). reflexivity.
  - rewrite !lines_of_app. unfold lines_of.
    rewrite !split_no_sep by (assumption || reflexivity). reflexivity.
Qed.

Lemma generated_entry_tidy (r : entry_request) (e : string) :
  single_line r -> generates r e ->
  blank_lines_empty e /\ empty_line_on_top e.
Proof.
  intros Hr Hg.
  destruct (generated_entry_lines r e Hr Hg)
    as (l0 & l2 & l3 & l4 & E & H0 & H2 & H3 & H4).
  split.
  - intros line Hin Hw. rewrite E in Hin.
    repeat (destruct Hin as [<-|Hin]; [try reflexivity; congruence|]).
    destruct Hin.
  - unfold empty_line_on_top. rewrite E. cbn. auto.
Qed.

(* ===================================================================== *)
(** * More facts about the two version calculators *)
(* ===================================================================== *)

(** Decide the string comparisons between literals that a goal holds. *)
Ltac decide_selectors :=
  repeat match goal with
         | |- context [String.eqb ?a ?b] =>
             let v := eval vm_compute in (String.eqb a b) in
             change (String.eqb a b) with v
         end;
  cbv iota.

Lemma calculateNextVersion_minor (a b c : string) (w : World) :
  a <> "" -> b <> "" -> c <> "" ->
  all_digits a = true -> all_digits b = true -> all_digits c = true ->
  (digits_value a <= two53)%N -> (digits_value b <= two53)%N ->
  calculateNextVersion (a ++ "." ++ b ++ "." ++ c) (Some "minor") w
  = (Return (version_string (digits_value a) (succ53 (digits_value b)) 0), w).
Proof.
  intros Na Nb Nc Ha Hb Hc HA HB.
  unfold calculateNextVersion.
  rewrite (versionRegex_exec_complete a b c) by assumption.
  decide_selectors.
  rewrite !Number_of_digits_exact by assumption.
  rewrite add1_succ53 by assumption.
  rewrite !Number_toString_exact by (assumption || apply succ53_le).
  reflexivity.
Qed.

Lemma calculateNextVersion_major (a b c : string) (w : World) :
  a <> "" -> b <> "" -> c <> "" ->
  all_digits a = true -> all_digits b = true -> all_digits c = true ->
  (digits_value a <= two53)%N ->
  calculateNextVersion (a ++ "." ++ b ++ "." ++ c) (Some "major") w
  = (Return (version_string (succ53 (digits_value a)) 0 0), w).
Proof.
  intros Na Nb Nc Ha Hb Hc HA.
  unfold calculateNextVersion.
  rewrite (versionRegex_exec_complete a b c) by assumption.
  decide_selectors.
  rewrite !Number_of_digits_exact by assumption.
  rewrite add1_succ53 by assumption.
  rewrite !Number_toString_exact by (assumption || apply succ53_le).
  reflexivity.
Qed.

Lemma split_three (a b c : string) :
  no_char "." a = true -> no_char "." b = true -> no_char "." c = true ->
  split "." (a ++ "." ++ b ++ "." ++ c) = [a; b; c].
Proof.
  intros Ha Hb Hc.
  change ("." ++ b ++ "." ++ c) with (String "." (b ++ String "." c)).
  rewrite split_app by exact Ha.
  rewrite split_app by exact Hb.
  rewrite split_no_sep by exact Hc. reflexivity.
Qed.

Lemma split_two (a b : string) :
  no_char "." a = true -> no_char "." b = true ->
  split "." (a ++ "." ++ b) = [a; b].
Proof.
  intros Ha Hb.
  change ("." ++ b) with (String "." b).
  rewrite split_app by exact Ha.
  rewrite split_no_sep by exact Hb. reflexivity.
Qed.

(** [parseInt] reads the digits in front and ignores what follows them. *)
Lemma parseInt10_leading_digits (n : N) (suffix : string) :
  (n <= two53)%N ->
  suffix = "" \/ (exists c r, suffix = String c r /\ is_digit c = false) ->
  parseInt10 (VString (decimal n ++ suffix)) = Fin (Z.of_N n).
Proof.
  intros Hn Hs.
  assert (Hspan : exists rest, span_digits (decimal n ++ suffix) = (decimal n, rest)).
  { destruct Hs as [->|(c & r & -> & Hc)].
    - rewrite append_nil_r. exists "". apply span_digits_all, decimal_all_digits.
    - exists (String c r). apply span_digits_app; [apply decimal_all_digits | exact Hc]. }
  destruct Hspan as [rest Hspan].
  pose proof (decimal_nonempty n) as Hne.
  pose proof (decimal_all_digits n) as Hd.
  unfold parseInt10. cbn [ToString].
  destruct (decimal n) as [|c0 r0] eqn:E; [congruence|].
  cbn [all_digits] in Hd. apply andb_true_iff in Hd. destruct Hd as [Hc0 _].
  cbn [append] in *.
  rewrite (trim_start_digit c0 _ Hc0), (strip_sign_digit c0 _ Hc0), Hspan.
  rewrite <- E, digits_value_decimal. apply F_exact, Hn.
Qed.

(** The script's patch increment on three parts of which only the third is
    looked at. *)
Lemma upgrade_patch_text (a b suffix : string) (patch : N) (w : World) :
  no_char "." a = true -> no_char "." b = true -> no_char "." suffix = true ->
  suffix = "" \/ (exists c r, suffix = String c r /\ is_digit c = false) ->
  (patch <= two53)%N ->
  argv2 w = Some "patch" ->
  package_version w = a ++ "." ++ b ++ "." ++ (decimal patch ++ suffix) ->
  UpgradeVersion.main w
  = (Return (a ++ "." ++ b ++ "." ++ decimal (script_patch patch)),
     with_stdout w (a ++ "." ++ b ++ "." ++ decimal (script_patch patch))).
Proof.
  intros Ha Hb Hsfx Hs Hp Hargv Hpkg.
  rewrite (main_recognized Patch w Hargv). cbn [kind_name].
  unfold UpgradeVersion.upgradePackageJSONVersion, bind at 1, read_package_version.
  rewrite Hpkg, split_three; try assumption.
  2:{ rewrite no_char_app, Hsfx, andb_true_r.
      apply all_digits_no_char; auto with numerals. }
  run_switch.
  rewrite parseInt10_leading_digits by assumption.
  rewrite add1_succ53 by assumption.
  rewrite lt100_Fin. unfold script_patch.
  destruct (succ53 patch <? 100)%N;
    unfold try_catch, bind, ret, console_log, with_stdout, join;
    cbn [map join_elem ToString String.concat].
  - rewrite Number_toString_hundred. reflexivity.
  - rewrite Number_toString_exact by apply succ53_le. reflexivity.
Qed.

Lemma script_patch_bounds (patch : N) :
  (patch < two53)%N -> (100 <= script_patch patch /\ patch < script_patch patch)%N.
Proof.
  intros H. unfold script_patch. rewrite succ53_below by exact H.
  destruct (N.ltb_spec (patch + 1) 100); lia.
Qed.

(** ** Prefixes *)

Lemma substring_prefix (s : string) : forall n,
  exists rest,
    s = String.substring 0 n s ++ rest
    /\ String.length (String.substring 0 n s) = Nat.min n (String.length s).
Proof.
  induction s as [|c r IH]; intros n.
  - exists "". destruct n; split; reflexivity.
  - destruct n as [|n].
    + exists (String c r). split; reflexivity.
    + destruct (IH n) as (rest & E & L).
      exists rest. cbn [String.substring append String.length Nat.min].
      split; [rewrite <- E; reflexivity | rewrite L; reflexivity].
Qed.

Lemma chain_patch_from (X Y : N) (n : nat) (w : World) : forall p,
  (X <= two53)%N -> (Y <= two53)%N -> (0 < p)%N -> (p + N.of_nat n <= two53)%N ->
  chain (version_string X Y p) (repeat (Some "patch") n) w
  = (Return (version_string X Y (p + N.of_nat n)), w).
Proof.
  induction n as [|n IH]; intros p HX HY Hp Hb.
  - cbn [repeat chain]. rewrite N.add_0_r. reflexivity.
  - cbn [repeat chain].
    rewrite (bind_returns _ _ w w (version_string X Y (p + 1))).
    + rewrite IH by lia. f_equal. f_equal. f_equal. lia.
    + rewrite (calculateNextVersion_components _ _ X Y p)
        by (try apply components_version_string; lia).
      cbn [vm_step String.eqb Ascii.eqb Bool.eqb version_string_of].
      destruct (N.eqb_spec p 0); [lia|].
      rewrite succ53_below by lia. reflexivity.
Qed.

(* ===================================================================== *)
(** * Further properties of the code *)
(* ===================================================================== *)

(** ** Minor and major increments *)

(** X1.  A minor increment adds one to the minor number and sets the patch
    to 0, whatever the patch was, and leaves the major number: with
    [calculateNextVersion] when major and minor are at most 2^53 - 1, with
    the bump script too. *)
Theorem minor_increment (major minor patch : N) (w w' : World) :
  (major <= MAX_SAFE_INTEGER)%N ->
  (minor <= MAX_SAFE_INTEGER)%N ->
  argv2 w' = Some "minor" ->
  package_version w' = version_string major minor patch ->
  calculateNextVersion (version_string major minor patch) (Some "minor") w
  = (Return (version_string major (minor + 1) 0), w)
  /\ UpgradeVersion.main w'
     = (Return (version_string major (minor + 1) 0),
        with_stdout w' (version_string major (minor + 1) 0)).
Proof.
  unfold MAX_SAFE_INTEGER. intros HM Hm Hargv Hpkg.
  assert (Hs : succ53 minor = (minor + 1)%N)
    by (apply succ53_below; unfold two53; lia).
  split.
  - unfold version_string at 1.
    rewrite calculateNextVersion_minor;
      rewrite ?digits_value_decimal; auto with numerals; try (unfold two53; lia).
    rewrite Hs. reflexivity.
  - rewrite (main_canonical Minor major minor patch w' Hargv Hpkg)
      by (cbn; unfold two53; lia).
    cbn [script_step version_string_of]. rewrite Hs. reflexivity.
Qed.

Lemma minor_increment_witness :
  calculateNextVersion (version_string 1 2 105) (Some "minor")
    (example_world None "0.0.0")
  = (Return (version_string 1 (2 + 1) 0), example_world None "0.0.0")
  /\ UpgradeVersion.main (example_world (Some "minor") "1.2.105")
     = (Return (version_string 1 (2 + 1) 0),
        with_stdout (example_world (Some "minor") "1.2.105")
          (version_string 1 (2 + 1) 0)).
Proof.
  apply (minor_increment 1 2 105 (example_world None "0.0.0")
           (example_world (Some "minor") "1.2.105")).
  - vm_compute. discriminate.
  - vm_compute. discriminate.
  - reflexivity.
  - vm_compute. reflexivity.
Defined.

(** X2.  A major increment adds one to the major number and sets minor and
    patch to 0, whatever they were: with [calculateNextVersion] and with
    the bump script, when the major number is at most 2^53 - 1. *)
Theorem major_increment (major minor patch : N) (w w' : World) :
  (major <= MAX_SAFE_INTEGER)%N ->
  argv2 w' = Some "major" ->
  package_version w' = version_string major minor patch ->
  calculateNextVersion (version_string major minor patch) (Some "major") w
  = (Return (version_string (major + 1) 0 0), w)
  /\ UpgradeVersion.main w'
     = (Return (version_string (major + 1) 0 0),
        with_stdout w' (version_string (major + 1) 0 0)).
Proof.
  unfold MAX_SAFE_INTEGER. intros HM Hargv Hpkg.
  assert (Hs : succ53 major = (major + 1)%N)
    by (apply succ53_below; unfold two53; lia).
  split.
  - unfold version_string at 1.
    rewrite calculateNextVersion_major;
      rewrite ?digits_value_decimal; auto with numerals; try (unfold two53; lia).
    rewrite Hs. reflexivity.
  - rewrite (main_canonical Major major minor patch w' Hargv Hpkg)
      by (cbn; unfold two53; lia).
    cbn [script_step version_string_of]. rewrite Hs. reflexivity.
Qed.

Lemma major_increment_witness :
  calculateNextVersion (version_string 1 2 105) (Some "major")
    (example_world None "0.0.0")
  = (Return (version_string (1 + 1) 0 0), example_world None "0.0.0")
  /\ UpgradeVersion.main (example_world (Some "major") "1.2.105")
     = (Return (version_string (1 + 1) 0 0),
        with_stdout (example_world (Some "major") "1.2.105")
          (version_string (1 + 1) 0 0)).
Proof.
  apply (major_increment 1 2 105 (example_world None "0.0.0")
           (example_world (Some "major") "1.2.105")).
  - vm_compute. discriminate.
  - reflexivity.
  - vm_compute. reflexivity.
Defined.

(** X3.  Every increment moves forward: for components of at most 2^53 - 1
    and each of the three kinds, the version [calculateNextVersion] returns
    and the version the script prints both come after the current one in
    the order major, minor, patch. *)
Theorem next_version_is_later (k : IncrementKind) (major minor patch : N)
    (w w' : World) :
  (major <= MAX_SAFE_INTEGER)%N ->
  (minor <= MAX_SAFE_INTEGER)%N ->
  (patch <= MAX_SAFE_INTEGER)%N ->
  argv2 w' = Some (kind_name k) ->
  package_version w' = version_string major minor patch ->
  exists t t',
    calculateNextVersion (version_string major minor patch) (Some (kind_name k)) w
    = (Return (version_string_of t), w)
    /\ version_lt (major, minor, patch) t
    /\ UpgradeVersion.main w'
       = (Return (version_string_of t'), with_stdout w' (version_string_of t'))
    /\ version_lt (major, minor, patch) t'.
Proof.
  unfold MAX_SAFE_INTEGER. intros HM Hm Hp Hargv Hpkg.
  exists (spec_nextVersion k (major, minor, patch)),
         (script_step k (major, minor, patch)).
  split; [|split; [|split]].
  - rewrite (calculateNextVersion_components _ _ major minor patch)
      by (try apply components_version_string; unfold two53; lia).
    rewrite vm_step_kind by (unfold two53; lia). reflexivity.
  - destruct k; cbn; try lia. destruct (N.eqb_spec patch 0); lia.
  - apply main_canonical; try assumption. destruct k; cbn; unfold two53; lia.
  - destruct k; cbn; unfold script_patch;
      rewrite ?succ53_below by (unfold two53; lia); try lia.
    destruct (N.ltb_spec (patch + 1) 100); lia.
Qed.

Lemma next_version_is_later_witness :
  exists t t',
    calculateNextVersion (version_string 1 2 5) (Some (kind_name Patch))
      (example_world None "0.0.0")
    = (Return (version_string_of t), example_world None "0.0.0")
    /\ version_lt (1, 2, 5)%N t
    /\ UpgradeVersion.main (example_world (Some "patch") "1.2.5")
       = (Return (version_string_of t'),
          with_stdout (example_world (Some "patch") "1.2.5") (version_string_of t'))
    /\ version_lt (1, 2, 5)%N t'.
Proof.
  apply (next_version_is_later Patch 1 2 5 (example_world None "0.0.0")
           (example_world (Some "patch") "1.2.5")).
  - vm_compute. discriminate.
  - vm_compute. discriminate.
  - vm_compute. discriminate.
  - reflexivity.
  - vm_compute. reflexivity.
Defined.

(** ** What the script reads of the version *)

(** X4.  On a patch increment the script prints the first two parts of the
    version exactly as they are written, whatever they are, reads the
    digits the third part starts with and ignores what follows them; the
    new patch number is at least 100 and greater than the old one (for a
    patch of at most 2^53 - 1). *)
Theorem script_patch_reads_leading_digits (a b suffix : string) (patch : N)
    (w : World) :
  no_char "." a = true -> no_char "." b = true -> no_char "." suffix = true ->
  suffix = "" \/ (exists c r, suffix = String c r /\ is_digit c = false) ->
  (patch <= MAX_SAFE_INTEGER)%N ->
  argv2 w = Some "patch" ->
  package_version w = a ++ "." ++ b ++ "." ++ (decimal patch ++ suffix) ->
  exists patch',
    (100 <= patch')%N /\ (patch < patch')%N
    /\ UpgradeVersion.main w
       = (Return (a ++ "." ++ b ++ "." ++ decimal patch'),
          with_stdout w (a ++ "." ++ b ++ "." ++ decimal patch')).
Proof.
  unfold MAX_SAFE_INTEGER. intros Ha Hb Hsfx Hs Hp Hargv Hpkg.
  exists (script_patch patch).
  destruct (script_patch_bounds patch) as [H1 H2]; [unfold two53; lia|].
  split; [exact H1|]. split; [exact H2|].
  apply (upgrade_patch_text a b suffix); try assumption. unfold two53. lia.
Qed.

Lemma script_patch_reads_leading_digits_witness :
  exists patch',
    (100 <= patch')%N /\ (3 < patch')%N
    /\ UpgradeVersion.main (example_world (Some "patch") "v1.02.3-beta")
       = (Return ("v1" ++ "." ++ "02" ++ "." ++ decimal patch'),
          with_stdout (example_world (Some "patch") "v1.02.3-beta")
            ("v1" ++ "." ++ "02" ++ "." ++ decimal patch')).
Proof.
  apply (script_patch_reads_leading_digits "v1" "02" "-beta" 3
           (example_world (Some "patch") "v1.02.3-beta")).
  - reflexivity.
  - reflexivity.
  - reflexivity.
  - right. exists "-"%char, "beta". split; reflexivity.
  - vm_compute. discriminate.
  - reflexivity.
  - vm_compute. reflexivity.
Defined.

(** X5.  A version of two parts has no patch to read: on a patch increment
    the script prints the two parts followed by NaN and ends normally. *)
Theorem script_missing_patch (a b : string) (w : World) :
  no_char "." a = true -> no_char "." b = true ->
  argv2 w = Some "patch" ->
  package_version w = a ++ "." ++ b ->
  UpgradeVersion.main w
  = (Return (a ++ "." ++ b ++ ".NaN"), with_stdout w (a ++ "." ++ b ++ ".NaN")).
Proof.
  intros Ha Hb Hargv Hpkg.
  rewrite (main_recognized Patch w Hargv). cbn [kind_name].
  unfold UpgradeVersion.upgradePackageJSONVersion, bind at 1, read_package_version.
  rewrite Hpkg, split_two by assumption.
  run_switch.
  change (parseInt10 VUndefined) with NaN.
  cbn [add1 lt100].
  unfold try_catch, bind, ret, console_log, with_stdout, join.
  cbn [map join_elem ToString String.concat Number_toString]. reflexivity.
Qed.

Lemma script_missing_patch_witness :
  UpgradeVersion.main (example_world (Some "patch") "1.2")
  = (Return ("1" ++ "." ++ "2" ++ ".NaN"),
     with_stdout (example_world (Some "patch") "1.2") ("1" ++ "." ++ "2" ++ ".NaN")).
Proof.
  apply (script_missing_patch "1" "2" (example_world (Some "patch") "1.2"));
    reflexivity.
Defined.

(** ** The patch cycle *)

(** X6.  From X.Y.0 the patch increments of [calculateNextVersion] run
    through X.Y.100, X.Y.101, X.Y.102, ...: after n + 1 of them the version
    is X.Y.(100 + n), as long as the numbers are at most 2^53. *)
Theorem patch_progression (X Y : N) (n : nat) (w : World) :
  (X <= two53)%N -> (Y <= two53)%N -> (100 + N.of_nat n <= two53)%N ->
  chain (version_string X Y 0) (repeat (Some "patch") (S n)) w
  = (Return (version_string X Y (100 + N.of_nat n)), w).
Proof.
  intros HX HY Hn. cbn [repeat chain].
  rewrite (bind_returns _ _ w w (version_string X Y 100)).
  - apply chain_patch_from; try assumption. lia.
  - rewrite (calculateNextVersion_components _ _ X Y 0)
      by (try apply components_version_string; try assumption; unfold two53; lia).
    reflexivity.
Qed.

Lemma patch_progression_witness :
  chain (version_string 1 2 0) (repeat (Some "patch") (S 3))
    (example_world None "0.0.0")
  = (Return (version_string 1 2 (100 + N.of_nat 3)), example_world None "0.0.0").
Proof.
  apply (patch_progression 1 2 3 (example_world None "0.0.0"));
    vm_compute; discriminate.
Defined.

(** ** The label of the commit link *)

(** X7.  For every sha, also one of fewer than seven characters, the entry
    is generated; the label of its commit link is the prefix of the sha
    that has seven characters, or the whole sha when it is shorter. *)
Theorem short_sha_is_prefix (version : string)
    (commit : ChangelogManager.commitData) (w : World) :
  exists label rest,
    ChangelogManager.sha commit = label ++ rest
    /\ String.length label = Nat.min 7 (String.length (ChangelogManager.sha commit))
    /\ ChangelogManager.generateChangelogEntry version commit w
       = (Return ("## [" ++ version ++ "] - " ++ iso_date (clock w) ++ nl ++ nl
                  ++ "**Author:** " ++ ChangelogManager.author commit ++ nl
                  ++ "**Commit:** [" ++ label
                  ++ "](https://github.com/owner/repo/commit/"
                  ++ ChangelogManager.sha commit ++ ")" ++ nl
                  ++ "**Message:** " ++ ChangelogManager.message commit ++ nl ++ nl),
          w).
Proof.
  destruct (substring_prefix (ChangelogManager.sha commit) 7) as (rest & E & L).
  exists (substring_to 7 (ChangelogManager.sha commit)), rest.
  split; [exact E|]. split; [exact L|].
  unfold ChangelogManager.generateChangelogEntry, bind, Date_now, ret.
  rewrite currentDate_is_iso_date. reflexivity.
Qed.

(** ** Writing the changelog *)

(** X8.  When no changelog exists, [updateChangelog] creates it and returns
    normally; the file holds the entry, a line feed and then the default
    header, so the entry stands above the title; no other path changes. *)
Theorem updateChangelog_creates (newEntry changelogPath : string) (d : Disk) :
  d changelogPath = None ->
  updateChangelog newEntry changelogPath d
  = (Return tt, disk_write d changelogPath (newEntry ++ nl ++ changelogHeader)).
Proof.
  intros Hd. destruct changelogHeader_tidy as [Hblank Htop].
  apply updateChangelog_top; [right; split; [exact Hd | reflexivity] | |];
    assumption.
Qed.

Lemma updateChangelog_creates_witness :
  updateChangelog "ENTRY" "./CHANGELOG.md" empty_disk
  = (Return tt,
     disk_write empty_disk "./CHANGELOG.md" ("ENTRY" ++ nl ++ changelogHeader)).
Proof. apply (updateChangelog_creates "ENTRY" "./CHANGELOG.md" empty_disk). reflexivity. Defined.

(** X9.  On an existing changelog [updateChangelog] returns normally and
    rewrites that file alone: every line of the old text is kept, in order,
    and the entry is put in as one block, either before the first line or
    right behind a line of white space that stands at index 3 or later and
    equals none of the lines before it. *)
Theorem updateChangelog_inserts (newEntry changelogPath content : string) (d : Disk) :
  d changelogPath = Some (File content) ->
  exists k,
    (k <= List.length (lines_of content))%nat
    /\ (k = 0%nat
        \/ (4 <= k)%nat
           /\ exists line,
                nth_error (lines_of content) (k - 1) = Some line
                /\ whitespace_only line = true
                /\ ~ In line (firstn (k - 1) (lines_of content)))
    /\ updateChangelog newEntry changelogPath d
       = (Return tt,
          disk_write d changelogPath
            (String.concat nl
               (firstn k (lines_of content) ++ newEntry :: skipn k (lines_of content)))).
Proof.
  intros Hd.
  destruct (updateChangelog_text newEntry changelogPath d (or_introl (ex_intro _ content Hd)))
    as (k & Hlen & Ek & E).
  rewrite Hd in Hlen, Ek, E.
  exists k. split; [exact Hlen|]. split; [|exact E].
  destruct (headerEndIndex_cases (lines_of content))
    as [[Eh _] | (n & line & Eh & Hn3 & Hn & Hw & Hnot)]; rewrite Eh in Ek.
  - left. lia.
  - right. assert (k = S n) by lia. subst k.
    split; [lia|]. exists line.
    replace (S n - 1)%nat with n by lia. auto.
Qed.

Lemma updateChangelog_inserts_witness :
  exists k,
    (k <= List.length (lines_of example_changelog))%nat
    /\ (k = 0%nat
        \/ (4 <= k)%nat
           /\ exists line,
                nth_error (lines_of example_changelog) (k - 1) = Some line
                /\ whitespace_only line = true
                /\ ~ In line (firstn (k - 1) (lines_of example_changelog)))
    /\ updateChangelog "ENTRY" "./CHANGELOG.md"
         (disk_write empty_disk "./CHANGELOG.md" example_changelog)
       = (Return tt,
          disk_write (disk_write empty_disk "./CHANGELOG.md" example_changelog)
            "./CHANGELOG.md"
            (String.concat nl
               (firstn k (lines_of example_changelog)
                  ++ "ENTRY" :: skipn k (lines_of example_changelog)))).
Proof.
  apply (updateChangelog_inserts "ENTRY" "./CHANGELOG.md" example_changelog
           (disk_write empty_disk "./CHANGELOG.md" example_changelog)).
  reflexivity.
Defined.

(** X10.  When every blank line of the existing changelog is empty and one
    of its first three lines is empty, as in a changelog that starts with a
    title and an empty line, the new text is the entry, a line feed and the
    old text: the entry goes above the title, not behind the header. *)
Theorem updateChangelog_prepends (newEntry changelogPath content : string) (d : Disk) :
  d changelogPath = Some (File content) ->
  blank_lines_empty content ->
  empty_line_on_top content ->
  updateChangelog newEntry changelogPath d
  = (Return tt, disk_write d changelogPath (newEntry ++ nl ++ content)).
Proof.
  intros Hd Hblank Htop.
  apply updateChangelog_top; [left; exact Hd | exact Hblank | exact Htop].
Qed.

Lemma updateChangelog_prepends_witness :
  updateChangelog "ENTRY" "./CHANGELOG.md"
    (disk_write empty_disk "./CHANGELOG.md" example_changelog)
  = (Return tt,
     disk_write (disk_write empty_disk "./CHANGELOG.md" example_changelog)
       "./CHANGELOG.md" ("ENTRY" ++ nl ++ example_changelog)).
Proof.
  apply (updateChangelog_prepends "ENTRY" "./CHANGELOG.md" example_changelog
           (disk_write empty_disk "./CHANGELOG.md" example_changelog)).
  - reflexivity.
  - intros line Hin Hw. vm_compute in Hin.
    repeat (destruct Hin as [<-|Hin]; [try reflexivity; discriminate Hw|]).
    destruct Hin.
  - vm_compute. auto.
Defined.

(** X11.  When the changelog exists and cannot be read, [updateChangelog]
    throws "Failed to update changelog: " followed by the message of the
    read error, and writes nothing. *)
Theorem updateChangelog_read_failure (newEntry changelogPath : string) (d : Disk)
    (read_error write_error : string) :
  d changelogPath = Some (Blocked read_error write_error) ->
  updateChangelog newEntry changelogPath d
  = (Throw ("Failed to update changelog: " ++ read_error), d).
Proof.
  intros Hd.
  unfold updateChangelog, fs_try_catch, fs_bind, existsSync, readFileSync, fs_throw.
  repeat (rewrite Hd; cbv beta iota). reflexivity.
Qed.

Lemma updateChangelog_read_failure_witness :
  updateChangelog "ENTRY" "./CHANGELOG.md"
    (fun _ => Some (Blocked "EISDIR: illegal operation on a directory, read" "EISDIR"))
  = (Throw ("Failed to update changelog: "
            ++ "EISDIR: illegal operation on a directory, read"),
     fun _ => Some (Blocked "EISDIR: illegal operation on a directory, read" "EISDIR")).
Proof.
  apply (updateChangelog_read_failure "ENTRY" "./CHANGELOG.md"
           (fun _ => Some (Blocked "EISDIR: illegal operation on a directory, read" "EISDIR"))
           "EISDIR: illegal operation on a directory, read" "EISDIR").
  reflexivity.
Defined.



(** X14.  [updateChangelog] is all or nothing, whatever the disk has at the
    changelog path (a file, a file that cannot be written, something that
    cannot be read, nothing, or nothing in a place where no file can be
    created): either it returns normally and the disk differs from the one
    before by the text of the changelog path alone, or it throws an error
    whose message starts with "Failed to update changelog: " and the disk
    is as before.  It never ends the process and never throws another
    message. *)
Theorem updateChangelog_all_or_nothing (newEntry changelogPath : string) (d : Disk) :
  (exists text,
      updateChangelog newEntry changelogPath d
      = (Return tt, disk_write d changelogPath text))
  \/ (exists message,
        updateChangelog newEntry changelogPath d
        = (Throw ("Failed to update changelog: " ++ message), d)).
Proof.
  destruct (d changelogPath) as [[c | c we | re we | we] |] eqn:Hd.
  - left.
    destruct (updateChangelog_text newEntry changelogPath d
                (or_introl (ex_intro _ c Hd))) as (k & _ & _ & E).
    eexists. exact E.
  - right. exists we.
    unfold updateChangelog, fs_try_catch, fs_bind, existsSync, readFileSync,
      writeFileSync, fs_throw.
    cbv zeta. repeat (rewrite Hd; cbv beta iota). reflexivity.
  - right. exists re.
    unfold updateChangelog, fs_try_catch, fs_bind, existsSync, readFileSync, fs_throw.
    repeat (rewrite Hd; cbv beta iota). reflexivity.
  - right. exists we.
    unfold updateChangelog, fs_try_catch, fs_bind, existsSync, fs_ret,
      writeFileSync, fs_throw.
    cbv zeta. repeat (rewrite Hd; cbv beta iota). reflexivity.
  - left.
    destruct (updateChangelog_text newEntry changelogPath d (or_intror Hd))
      as (k & _ & _ & E).
    eexists. exact E.
Qed.

(** X12.  Entries that [generateChangelogEntry] makes from a version, an
    author, a sha and a message without line feeds, written one after the
    other by [updateChangelog] to a path where no changelog exists, end up
    newest first: the file holds the last entry on top, each entry followed
    by a line feed, and the default header at the bottom; every call
    returns normally and no other path changes. *)
Theorem successive_updates_newest_first (requests : list entry_request)
    (entries : list string) (changelogPath : string) (d : Disk) :
  d changelogPath = None ->
  entries <> [] ->
  Forall single_line requests ->
  Forall2 generates requests entries ->
  exists d',
    updateChangelog_all entries changelogPath d = (Return tt, d')
    /\ d' changelogPath = Some (File (stack entries changelogHeader))
    /\ forall q, q <> changelogPath -> d' q = d q.
Proof.
  intros Hd Hne Hsingle Hgen.
  assert (Htidy : Forall (fun e => blank_lines_empty e /\ empty_line_on_top e) entries).
  { clear Hne Hd. induction Hgen as [|r e rs es Hre _ IH]; [constructor|].
    inversion Hsingle as [|r' rs' Hr Hrs]; subst.
    constructor; [exact (generated_entry_tidy r e Hr Hre) | exact (IH Hrs)]. }
  destruct entries as [|e rest]; [congruence|].
  inversion Htidy as [|e' rest' [He1 He2] Hrest]; subst.
  destruct changelogHeader_tidy as [Hblank Htop].
  cbn [updateChangelog_all stack]. unfold fs_bind.
  rewrite (updateChangelog_top e changelogPath changelogHeader d
             (or_intror (conj Hd eq_refl)) Hblank Htop).
  destruct (updateChangelog_all_file rest changelogPath
              (disk_write d changelogPath (e ++ nl ++ changelogHeader))
              (e ++ nl ++ changelogHeader))
    as (d' & E & Hfile & Hframe).
  - apply disk_write_same.
  - apply blank_lines_empty_app; assumption.
  - apply empty_line_on_top_app, He2.
  - exact Hrest.
  - exists d'. split; [exact E|]. split; [exact Hfile|].
    intros q Hq. rewrite (Hframe q Hq). apply disk_write_other, Hq.
Qed.

Lemma successive_updates_newest_first_witness :
  exists d',
    updateChangelog_all example_entries "./CHANGELOG.md" empty_disk = (Return tt, d')
    /\ d' "./CHANGELOG.md" = Some (File (stack example_entries changelogHeader))
    /\ forall q, q <> "./CHANGELOG.md" -> d' q = empty_disk q.
Proof.
  apply (successive_updates_newest_first example_requests example_entries
           "./CHANGELOG.md" empty_disk).
  - reflexivity.
  - discriminate.
  - repeat constructor.
  - repeat constructor; vm_compute; reflexivity.
Defined.

(** The file after the two updates of the witness, line by line. *)
Example two_updates :
  forall d',
    updateChangelog_all example_entries "./CHANGELOG.md" empty_disk = (Return tt, d') ->
    d' "./CHANGELOG.md"
    = Some (File ("## [1.2.101] - 2024-07-04" ++ nl ++ nl
                  ++ "**Author:** Test Author" ++ nl
                  ++ "**Commit:** [abc123d](https://github.com/owner/repo/commit/abc123def456789)" ++ nl
                  ++ "**Message:** fix: critical bug fix" ++ nl ++ nl ++ nl
                  ++ "## [1.2.100] - 2024-07-04" ++ nl ++ nl
                  ++ "**Author:** Test Author" ++ nl
                  ++ "**Commit:** [abc123d](https://github.com/owner/repo/commit/abc123def456789)" ++ nl
                  ++ "**Message:** feat: add new feature for testing" ++ nl ++ nl ++ nl
                  ++ "# Changelog" ++ nl ++ nl
                  ++ "All notable changes to this project will be documented in this file."
                  ++ nl ++ nl)).
Proof.
  intros d' E. vm_compute in E. injection E as <-. vm_compute. reflexivity.
Qed.
